(** * Property-description and story-caption tools: string composition core

    A shallow embedding of the deterministic logic of the application:

    - [src/app/page.tsx]: [formatCurrency], the assembly of the listing
      description in [onSubmit], and the two-line caption splitter of
      [handleCopyToClipboard];
    - [src/ai/flows/format-property-features.ts]: the semicolon repair of
      [formatPropertyFeaturesFlow] (both revisions present in the sources);
    - [src/ai/flows/generate-story-text.ts]: the pipe stripping of
      [generateStoryTextFlow].

    JavaScript strings are sequences of UTF-16 code units, and [length],
    [trim], [split], [endsWith] all work on code units; they are modelled as
    lists of code units. *)

From Stdlib Require Import List NArith ZArith Lia Bool Permutation.
From Stdlib Require Import Strings.String Strings.Ascii.
From Stdlib Require Decimal DecimalPos DecimalN.
Import ListNotations.

(* ================================================================== *)
(** * The JavaScript platform functions used by the sources *)
(* ================================================================== *)

Module JS.

(** A UTF-16 code unit and a JavaScript string. *)
Abbreviation char := N (only parsing).
Abbreviation jsstring := (list N) (only parsing).

(** ** String literals

    Literals are written as in the TypeScript sources; the bytes of the
    (UTF-8) literal are decoded to code points and re-encoded as UTF-16
    code units, surrogate pairs included. *)

Fixpoint bytes_of (s : string) : list N :=
  match s with
  | EmptyString => []
  | String a r => N_of_ascii a :: bytes_of r
  end.

Fixpoint utf8_decode (bs : list N) : list N :=
  match bs with
  | [] => []
  | b0 :: r0 =>
      if (b0 <? 128)%N then b0 :: utf8_decode r0
      else
        match r0 with
        | [] => []
        | b1 :: r1 =>
            if (b0 <? 224)%N
            then ((b0 - 192) * 64 + (b1 - 128))%N :: utf8_decode r1
            else
              match r1 with
              | [] => []
              | b2 :: r2 =>
                  if (b0 <? 240)%N
                  then ((b0 - 224) * 4096 + (b1 - 128) * 64 + (b2 - 128))%N
                         :: utf8_decode r2
                  else
                    match r2 with
                    | [] => []
                    | b3 :: r3 =>
                        ((b0 - 240) * 262144 + (b1 - 128) * 4096
                         + (b2 - 128) * 64 + (b3 - 128))%N
                          :: utf8_decode r3
                    end
              end
        end
  end.

Definition utf16_units (cp : N) : list char :=
  if (cp <? 65536)%N then [cp]
  else
    let v := (cp - 65536)%N in
    [(55296 + v / 1024)%N; (56320 + v mod 1024)%N].

Definition lit (s : string) : jsstring :=
  flat_map utf16_units (utf8_decode (bytes_of s)).

Arguments lit s%_string.

(** Code units that occur as single characters in the sources. *)
Definition PIPE : char := 124%N.
Definition SEMICOLON : char := 59%N.
Definition NEWLINE : char := 10%N.
Definition DOT : char := 46%N.
Definition COMMA : char := 44%N.

Definition NBSP : jsstring := [160%N].

Definition char_eqb (a b : char) : bool := (a =? b)%N.

(** A string is truthy when it is not empty. *)
Definition truthy (s : jsstring) : bool :=
  match s with [] => false | _ :: _ => true end.

(** ** Whitespace and trimming

    [String.prototype.trim] and the regular-expression class [\s] remove
    the code points of WhiteSpace and LineTerminator. *)

Definition isWhiteSpace (c : char) : bool :=
  ((9 <=? c) && (c <=? 13)
   || (c =? 32) || (c =? 160) || (c =? 5760)
   || ((8192 <=? c) && (c <=? 8202))
   || (c =? 8232) || (c =? 8233) || (c =? 8239) || (c =? 8287)
   || (c =? 12288) || (c =? 65279))%N.

Fixpoint trimStart (s : jsstring) : jsstring :=
  match s with
  | [] => []
  | c :: r => if isWhiteSpace c then trimStart r else s
  end.

Definition trimEnd (s : jsstring) : jsstring := rev (trimStart (rev s)).

Definition trim (s : jsstring) : jsstring := trimEnd (trimStart s).

(** ** Prefixes, suffixes and slices *)

(** [dropPrefix p s] is [Some r] when [s = p ++ r]. *)
Fixpoint dropPrefix (p s : jsstring) : option jsstring :=
  match p with
  | [] => Some s
  | a :: p' =>
      match s with
      | [] => None
      | b :: s' => if char_eqb a b then dropPrefix p' s' else None
      end
  end.

Definition startsWith (s p : jsstring) : bool :=
  match dropPrefix p s with Some _ => true | None => false end.

Definition endsWith (s p : jsstring) : bool := startsWith (rev s) (rev p).

(** [s.includes(p)] *)
Fixpoint includes (s p : jsstring) : bool :=
  startsWith s p
  || match s with
     | [] => false
     | _ :: r => includes r p
     end.

(** [s.substring(1)] *)
Definition substring1 (s : jsstring) : jsstring := tl s.

(** [s.slice(0, -1)] *)
Definition sliceDropLast (s : jsstring) : jsstring := removelast s.

(** ** [split] and [join]

    [s.split(sep)] for a non-empty separator: occurrences are found from
    the left and do not overlap.  The recursion consumes at least one code
    unit per step, so [length s] steps are enough. *)

Definition consHead (c : char) (ts : list jsstring) : list jsstring :=
  match ts with
  | [] => [[c]]
  | t :: r => (c :: t) :: r
  end.

Fixpoint splitFuel (fuel : nat) (sep s : jsstring) : list jsstring :=
  match s with
  | [] => [[]]
  | c :: s' =>
      match fuel with
      | O => [s]
      | S fuel' =>
          match dropPrefix sep s with
          | Some rest => [] :: splitFuel fuel' sep rest
          | None => consHead c (splitFuel fuel' sep s')
          end
      end
  end.

Definition split (s sep : jsstring) : list jsstring :=
  splitFuel (List.length s) sep s.

(** [sep] occurs in [t]. *)
Definition occursIn (sep t : jsstring) : Prop :=
  exists pre post, t = pre ++ sep ++ post.

(** [parts.join(sep)] *)
Fixpoint join (parts : list jsstring) (sep : jsstring) : jsstring :=
  match parts with
  | [] => []
  | [p] => p
  | p :: r => p ++ sep ++ join r sep
  end.

(** ** [toUpperCase]

    The default Unicode upper-casing, given here for the Basic Latin and
    Latin-1 code units (the alphabet of the form's Portuguese input);
    code units from U+0100 on are left as they are. *)

Definition upperUnits (c : char) : jsstring :=
  if ((97 <=? c) && (c <=? 122))%N then [(c - 32)%N]
  else if (c =? 181)%N then [924%N]
  else if (c =? 223)%N then [83%N; 83%N]
  else if ((224 <=? c) && (c <=? 254) && negb (c =? 247))%N then [(c - 32)%N]
  else if (c =? 255)%N then [376%N]
  else [c].

Definition toUpperCase (s : jsstring) : jsstring := flat_map upperUnits s.

(** ** Values and exceptions *)

(** What a field of an object received from outside can hold: the sources
    only test such a field for truthiness and for [typeof v === 'string'].
    [VOther] stands for the values that are neither strings nor nullish
    (numbers, booleans, objects), with their truthiness. *)
Inductive jsvalue : Type :=
| VUndefined
| VNull
| VString (s : jsstring)
| VOther (isTruthy : bool).

Definition valueTruthy (v : jsvalue) : bool :=
  match v with
  | VUndefined | VNull => false
  | VString s => truthy s
  | VOther b => b
  end.

(** A thrown value: an [Error] built by the sources, a [TypeError] raised
    by the engine when a method is called on a value that has none, or a
    value that is not an [Error] at all. *)
Inductive jserror : Type :=
| Error (message : jsstring)
| TypeError (message : jsstring)
| NotAnError.

Inductive outcome (A : Type) : Type :=
| Return (a : A)
| Throw (e : jserror).

Arguments Return {A} a.
Arguments Throw {A} e.

(** ** Numbers

    [parseFloat] reads the longest prefix that is a decimal literal.  The
    value read is kept as the exact decimal [m * 10^e]; its rounding to a
    binary64 double (and the overflow of a huge literal to Infinity) is not
    part of the model: it is the identity on the integers and the short
    decimals of the form's fields.  Whether the result is NaN does not
    depend on it. *)

Inductive number : Type :=
| NaN
| Infinity (neg : bool)
| Dec (neg : bool) (m : N) (e : Z).

Definition isNaN (x : number) : bool :=
  match x with NaN => true | _ => false end.

Definition isDigit (c : char) : bool := ((48 <=? c) && (c <=? 57))%N.

(** The leading decimal digits of [s] (as digit values) and what follows. *)
Fixpoint spanDigits (s : jsstring) : list N * jsstring :=
  match s with
  | [] => ([], [])
  | c :: r =>
      if isDigit c
      then let (ds, rest) := spanDigits r in ((c - 48)%N :: ds, rest)
      else ([], s)
  end.

Definition digitsValue (ds : list N) : N :=
  fold_left (fun acc d => (10 * acc + d)%N) ds 0%N.

(** The value of an exponent part [e[+-]digits] at the head of [s], and
    0 when there is none. *)
Definition exponentPart (s : jsstring) : Z :=
  match s with
  | c :: r =>
      if ((c =? 101) || (c =? 69))%N then
        let '(neg, r') :=
          match r with
          | d :: r'' =>
              if (d =? 45)%N then (true, r'')
              else if (d =? 43)%N then (false, r'')
              else (false, r)
          | [] => (false, r)
          end in
        match fst (spanDigits r') with
        | [] => 0%Z
        | ds => let v := Z.of_N (digitsValue ds) in
                if neg then (- v)%Z else v
        end
      else 0%Z
  | [] => 0%Z
  end.

Definition INFINITY_WORD : jsstring := Eval cbv in lit "Infinity".

Definition parseFloat (s : jsstring) : number :=
  let t := trimStart s in
  let '(neg, body) :=
    match t with
    | c :: r =>
        if (c =? 45)%N then (true, r)
        else if (c =? 43)%N then (false, r)
        else (false, t)
    | [] => (false, t)
    end in
  if startsWith body INFINITY_WORD then Infinity neg
  else
    let (ip, r1) := spanDigits body in
    let (fp, r2) :=
      match r1 with
      | c :: r => if (c =? 46)%N then spanDigits r else ([], r1)
      | [] => ([], r1)
      end in
    match ip ++ fp with
    | [] => NaN
    | ds => Dec neg (digitsValue ds)
              (exponentPart r2 - Z.of_nat (List.length fp))
    end.

(** ** [Intl.NumberFormat("pt-BR", ...)]

    Grouping separator [.], decimal separator [,], rounding half away
    from zero to the largest number of fraction digits, trailing zeros
    removed down to the smallest. *)

Fixpoint uintChars (u : Decimal.uint) : jsstring :=
  match u with
  | Decimal.Nil => []
  | Decimal.D0 r => 48%N :: uintChars r
  | Decimal.D1 r => 49%N :: uintChars r
  | Decimal.D2 r => 50%N :: uintChars r
  | Decimal.D3 r => 51%N :: uintChars r
  | Decimal.D4 r => 52%N :: uintChars r
  | Decimal.D5 r => 53%N :: uintChars r
  | Decimal.D6 r => 54%N :: uintChars r
  | Decimal.D7 r => 55%N :: uintChars r
  | Decimal.D8 r => 56%N :: uintChars r
  | Decimal.D9 r => 57%N :: uintChars r
  end.

Definition digitsOf (n : N) : jsstring := uintChars (N.to_uint n).

(** Separators between groups of three, on the reversed digits. *)
Fixpoint group3 (k : nat) (rds : jsstring) : jsstring :=
  match rds with
  | [] => []
  | d :: r =>
      if Nat.eqb k 3 then DOT :: d :: group3 1 r else d :: group3 (S k) r
  end.

Definition groupThousands (ds : jsstring) : jsstring :=
  rev (group3 0 (rev ds)).

(** [m * 10^e * 10^frac], rounded half away from zero. *)
Definition roundScaled (m : N) (e : Z) (frac : nat) : N :=
  let sh := (e + Z.of_nat frac)%Z in
  if (0 <=? sh)%Z then (m * 10 ^ Z.to_N sh)%N
  else let d := (10 ^ Z.to_N (- sh))%N in ((2 * m + d) / (2 * d))%N.

Definition padZeros (width : nat) (ds : jsstring) : jsstring :=
  repeat 48%N (width - List.length ds) ++ ds.

(** Remove trailing zeros of the (reversed) fraction while more than
    [minFrac] digits are left. *)
Fixpoint dropZeros (minFrac : nat) (rfs : jsstring) : jsstring :=
  match rfs with
  | [] => []
  | d :: r =>
      if (d =? 48)%N && Nat.ltb minFrac (List.length rfs)
      then dropZeros minFrac r else rfs
  end.

Definition formatMagnitude (minFrac maxFrac : nat) (m : N) (e : Z)
  : jsstring :=
  let scaled := roundScaled m e maxFrac in
  let unit := (10 ^ N.of_nat maxFrac)%N in
  let ip := groupThousands (digitsOf (scaled / unit)) in
  let fp := rev (dropZeros minFrac
                   (rev (padZeros maxFrac (digitsOf (scaled mod unit))))) in
  match fp with
  | [] => ip
  | _ => ip ++ COMMA :: fp
  end.

Definition MINUS : jsstring := [45%N].
Definition NAN_WORD : jsstring := Eval cbv in lit "NaN".
Definition INFINITY_SIGN : jsstring := [8734%N].
Definition signOf (neg : bool) : jsstring := if neg then MINUS else [].

Definition formatBody (minFrac maxFrac : nat) (x : number) : jsstring :=
  match x with
  | NaN => NAN_WORD
  | Infinity _ => INFINITY_SIGN
  | Dec _ m e => formatMagnitude minFrac maxFrac m e
  end.

Definition numberSign (x : number) : jsstring :=
  match x with
  | NaN => []
  | Infinity neg | Dec neg _ _ => signOf neg
  end.

(** [new Intl.NumberFormat('pt-BR').format(x)] *)
Definition formatDecimalPtBR (x : number) : jsstring :=
  numberSign x ++ formatBody 0 3 x.

(** [new Intl.NumberFormat("pt-BR", {style: "currency", currency: "BRL"})
    .format(x)]: the symbol, a no-break space, two fraction digits. *)
Definition BRL_SYMBOL : jsstring := [82%N; 36%N; 160%N].

Definition formatCurrencyBRL (x : number) : jsstring :=
  numberSign x ++ BRL_SYMBOL ++ formatBody 2 2 x.

End JS.

Import JS.

(* ================================================================== *)
(** * [src/ai/flows/format-property-features.ts] *)
(* ================================================================== *)

(** What the prompt call hands back as [output], and what the page receives
    as [aiResult]: nothing, or an object with a [formattedFeatures] field. *)
Inductive response : Type :=
| Missing
| Fields (formattedFeatures : jsvalue).

Module FeatureFlow.

Definition INVALID_OUTPUT : jsstring := Eval cbv in
  lit "A IA não retornou uma formatação válida para as características. O resultado pode estar vazio ou malformado.".

(** The repair step of the flow:
    [if (formattedFeatures && !formattedFeatures.endsWith(';'))
       formattedFeatures += ';'] *)
Definition ensureSemicolon (formattedFeatures : jsstring) : jsstring :=
  if truthy formattedFeatures && negb (endsWith formattedFeatures [SEMICOLON])
  then formattedFeatures ++ [SEMICOLON]
  else formattedFeatures.

(** The flow, as a function of what the awaited prompt call produces. *)
Definition formatPropertyFeaturesFlow (prompt : outcome response)
  : outcome jsstring :=
  match prompt with
  | Throw e => Throw e
  | Return Missing => Throw (Error INVALID_OUTPUT)
  | Return (Fields v) =>
      match v with
      | VString s => Return (ensureSemicolon s)
      | _ => Throw (Error INVALID_OUTPUT)
      end
  end.

End FeatureFlow.

(** The other revision of the same flow in the sources: the repair works on
    the last line of the trimmed text and the result is trimmed. *)
Module FeatureFlowLines.

(** [lines[lines.length - 1] = v] on a non-empty array. *)
Definition setLast (lines : list jsstring) (v : jsstring) : list jsstring :=
  removelast lines ++ [v].

Definition ensureSemicolon (formattedFeatures : jsstring) : jsstring :=
  let repaired :=
    if truthy formattedFeatures
       && negb (endsWith (trim formattedFeatures) [SEMICOLON])
    then
      let lines := split (trim formattedFeatures) [NEWLINE] in
      let lastLine := last lines [] in
      if truthy lastLine
      then join (setLast lines
                   (if endsWith lastLine [SEMICOLON] then lastLine
                    else lastLine ++ [SEMICOLON]))
                [NEWLINE]
      else formattedFeatures
    else formattedFeatures in
  trim repaired.

Definition formatPropertyFeaturesFlow (prompt : outcome response)
  : outcome jsstring :=
  match prompt with
  | Throw e => Throw e
  | Return Missing => Throw (Error FeatureFlow.INVALID_OUTPUT)
  | Return (Fields v) =>
      match v with
      | VString s => Return (ensureSemicolon s)
      | _ => Throw (Error FeatureFlow.INVALID_OUTPUT)
      end
  end.

End FeatureFlowLines.

(** The lines of a feature block, and its last non-empty line. *)
Definition linesOf (s : jsstring) : list jsstring := split s [NEWLINE].

Fixpoint lastNonEmpty (ls : list jsstring) : option jsstring :=
  match ls with
  | [] => None
  | l :: r =>
      match lastNonEmpty r with
      | Some x => Some x
      | None => if truthy l then Some l else None
      end
  end.

Definition lastNonEmptyLine (s : jsstring) : option jsstring :=
  lastNonEmpty (linesOf s).

(** [l] ends with one semicolon and not with two. *)
Definition endsWithOneSemicolon (l : jsstring) : bool :=
  endsWith l [SEMICOLON] && negb (endsWith l [SEMICOLON; SEMICOLON]).

(* ================================================================== *)
(** * [src/ai/flows/generate-story-text.ts] *)
(* ================================================================== *)

Module StoryFlow.

Definition NO_STORY : jsstring := Eval cbv in
  lit "AI flow failed to generate story text. The output may be empty or malformed.".

Definition NO_TRIM : jsstring := Eval cbv in
  lit "output.storyText.trim is not a function".

(** The "final check" of the flow on [output.storyText]. *)
Definition stripPipes (raw : jsstring) : jsstring :=
  let storyText := trim raw in
  let storyText :=
    if startsWith storyText [PIPE] then trim (substring1 storyText)
    else storyText in
  let storyText :=
    if endsWith storyText [PIPE] then trim (sliceDropLast storyText)
    else storyText in
  storyText.

(** [output?.storyText] of the prompt's output: absent, or a field value. *)
Definition generateStoryTextFlow (prompt : outcome (option jsvalue))
  : outcome jsstring :=
  match prompt with
  | Throw e => Throw e
  | Return None => Throw (Error NO_STORY)
  | Return (Some v) =>
      if negb (valueTruthy v) then Throw (Error NO_STORY)
      else
        match v with
        | VString s => Return (stripPipes s)
        | _ => Throw (TypeError NO_TRIM)
        end
  end.

End StoryFlow.

(* ================================================================== *)
(** * [src/app/page.tsx] *)
(* ================================================================== *)

Module Page.

(** ** [formatCurrency] *)

(** [s.replace(/R\$\s*/g, ...)] with the empty replacement: every [R$] goes,
    with the whitespace after it.  [skipping] is true right after a match,
    while the [\s*] of that match is still being consumed. *)
Fixpoint removeMarker (skipping : bool) (s : jsstring) : jsstring :=
  match s with
  | [] => []
  | c :: r =>
      if skipping && isWhiteSpace c then removeMarker true r
      else
        match r with
        | d :: r' =>
            if (c =? 82)%N && (d =? 36)%N then removeMarker true r'
            else c :: removeMarker false r
        | [] => [c]
        end
  end.

(** [s.replace(/\./g, '')] *)
Definition removeDots (s : jsstring) : jsstring :=
  filter (fun c => negb (char_eqb c DOT)) s.

(** [s.replace(',', '.')]: the first comma only. *)
Fixpoint replaceFirstComma (s : jsstring) : jsstring :=
  match s with
  | [] => []
  | c :: r => if char_eqb c COMMA then DOT :: r else c :: replaceFirstComma r
  end.

(** The string handed to [parseFloat]. *)
Definition normalizePrice (valueStr : jsstring) : jsstring :=
  replaceFirstComma (removeDots (trim (removeMarker false valueStr))).

Definition formatCurrency (valueStr : jsstring) : jsstring :=
  let numberValue := parseFloat (normalizePrice valueStr) in
  if isNaN numberValue then valueStr
  else formatCurrencyBRL numberValue.

(** ** The description form *)

(** An area field holds a number, or the empty string of the blank form
    (which [Intl.NumberFormat] converts to 0). *)
Inductive areaField : Type :=
| AreaNumber (x : number)
| AreaBlank.

Definition areaValue (a : areaField) : number :=
  match a with
  | AreaNumber x => x
  | AreaBlank => Dec false 0 0
  end.

Record PropertyFormData : Type := {
  codigo : jsstring;
  valor : jsstring;
  bairro : jsstring;
  cidade : jsstring;
  areaTotal : areaField;
  areaPrivada : areaField;
  descricaoAdicional : option jsstring;
  caracteristicasPrincipais : jsstring
}.

Inductive toastVariant : Type := Default | Destructive.

Record toastMessage : Type := {
  variant : toastVariant;
  title : jsstring;
  description : jsstring
}.

(** The state of [PropertyDescriptionForm] that [onSubmit] writes, with the
    toasts shown so far (latest first). *)
Record formState : Type := {
  isLoading : bool;
  generatedDescription : jsstring;
  toasts : list toastMessage
}.

(** The state updates a handler issues, in order. *)
Inductive update : Type :=
| SetIsLoading (b : bool)
| SetGeneratedDescription (d : jsstring)
| Toast (t : toastMessage).

Definition applyUpdate (st : formState) (u : update) : formState :=
  match u with
  | SetIsLoading b =>
      {| isLoading := b;
         generatedDescription := generatedDescription st;
         toasts := toasts st |}
  | SetGeneratedDescription d =>
      {| isLoading := isLoading st;
         generatedDescription := d;
         toasts := toasts st |}
  | Toast t =>
      {| isLoading := isLoading st;
         generatedDescription := generatedDescription st;
         toasts := t :: toasts st |}
  end.

(** The states the form goes through, one after each update. *)
Fixpoint statesAfter (st : formState) (us : list update) : list formState :=
  match us with
  | [] => []
  | u :: r => applyUpdate st u :: statesAfter (applyUpdate st u) r
  end.

Definition NOT_FORMATTED : jsstring := Eval cbv in
  lit "A IA não conseguiu formatar as características.".
Definition NO_TRIMSTART : jsstring := Eval cbv in
  lit "aiResult.formattedFeatures.trimStart is not a function".
Definition UNEXPECTED : jsstring := Eval cbv in
  lit "Ocorreu um erro inesperado.".
Definition ERROR_TITLE : jsstring := Eval cbv in
  lit "Erro ao gerar descrição".
Definition SUCCESS_TITLE : jsstring := Eval cbv in lit "Sucesso!".
Definition SUCCESS_TEXT : jsstring := Eval cbv in lit "Descrição gerada.".

Definition LOCATION_SEP : jsstring := Eval cbv in lit " - ".
Definition STATE_SUFFIX : jsstring := Eval cbv in lit "/MG".
Definition CODE_LABEL : jsstring := Eval cbv in lit "Código do imóvel: ".
Definition FEATURES_HEADER : jsstring := Eval cbv in
  lit "CARACTERÍSTICAS PRINCIPAIS:".
Definition TOTAL_LABEL : jsstring := Eval cbv in lit "Área Total: ".
Definition PRIVATE_LABEL : jsstring := Eval cbv in lit "Área Privada: ".
Definition SQUARE_METRES : jsstring := Eval cbv in lit " m²".
Definition PRICE_LABEL : jsstring := Eval cbv in lit "💰VALOR: ".
Definition CONTACT_1 : jsstring := Eval cbv in
  lit "Agende uma visita hoje mesmo com nossa equipe:".
Definition CONTACT_2 : jsstring := Eval cbv in
  lit "📲(31) 9 9859 0590 / 3058-1600".
Definition CONTACT_3 : jsstring := Eval cbv in
  lit "Avenida Acadêmico Nilo Figueiredo, 3273, Santos Dumont II, Lagoa Santa/MG".

(** The array [descriptionParts] built from the form data and the formatted
    feature block. *)
Definition descriptionParts (data : PropertyFormData)
    (formattedFeatures : jsstring) : list jsstring :=
  let formattedValor := formatCurrency (valor data) in
  let location :=
    toUpperCase (bairro data) ++ LOCATION_SEP
      ++ toUpperCase (cidade data) ++ STATE_SUFFIX in
  let formattedAreaTotal := formatDecimalPtBR (areaValue (areaTotal data)) in
  let formattedAreaPrivada :=
    formatDecimalPtBR (areaValue (areaPrivada data)) in
  [location; []; CODE_LABEL ++ codigo data]
    ++ match descricaoAdicional data with
       | Some extra => if truthy (trim extra) then [[]; trim extra] else []
       | None => []
       end
    ++ [[]; FEATURES_HEADER; trimStart formattedFeatures; []]
    ++ [TOTAL_LABEL ++ formattedAreaTotal ++ SQUARE_METRES]
    ++ [PRIVATE_LABEL ++ formattedAreaPrivada ++ SQUARE_METRES]
    ++ [PRICE_LABEL ++ formattedValor; []]
    ++ [CONTACT_1]
    ++ [CONTACT_2]
    ++ [CONTACT_3].

Definition assembleDescription (data : PropertyFormData)
    (formattedFeatures : jsstring) : jsstring :=
  join (descriptionParts data formattedFeatures) [NEWLINE].

(** The body of the [try] block up to the text handed to
    [setGeneratedDescription]; [aiResult] is what the awaited adapter call
    produced. *)
Definition tryGenerate (aiResult : outcome response)
    (data : PropertyFormData) : outcome jsstring :=
  match aiResult with
  | Throw e => Throw e
  | Return Missing => Throw (Error NOT_FORMATTED)
  | Return (Fields v) =>
      if negb (valueTruthy v) then Throw (Error NOT_FORMATTED)
      else
        match v with
        | VString s => Return (assembleDescription data s)
        | _ => Throw (TypeError NO_TRIMSTART)
        end
  end.

(** [error instanceof Error ? error.message : "Ocorreu um erro inesperado."] *)
Definition errorText (e : jserror) : jsstring :=
  match e with
  | Error m | TypeError m => m
  | NotAnError => UNEXPECTED
  end.

(** The updates of [onSubmit]: before the [try], in it or in the [catch],
    and in the [finally]. *)
Definition onSubmitUpdates (aiResult : outcome response)
    (data : PropertyFormData) : list update :=
  [SetIsLoading true; SetGeneratedDescription []]
    ++ match tryGenerate aiResult data with
       | Return text =>
           [SetGeneratedDescription text;
            Toast {| variant := Default; title := SUCCESS_TITLE;
                     description := SUCCESS_TEXT |}]
       | Throw e =>
           [Toast {| variant := Destructive; title := ERROR_TITLE;
                     description := errorText e |}]
       end
    ++ [SetIsLoading false].

Definition onSubmit (aiResult : outcome response) (data : PropertyFormData)
    (st : formState) : formState :=
  fold_left applyUpdate (onSubmitUpdates aiResult data) st.

(** What the page receives from the adapter [formatPropertyFeatures], which
    returns [{formattedFeatures}] or rejects. *)
Definition adapterResult (flow : outcome jsstring) : outcome response :=
  match flow with
  | Return s => Return (Fields (VString s))
  | Throw e => Throw e
  end.

(** The adapter result carries a non-empty string. *)
Definition usable (r : response) : bool :=
  match r with
  | Fields (VString (_ :: _)) => true
  | _ => false
  end.

(** The listing and the feature block of the end-to-end example. *)
Definition exampleListing : PropertyFormData :=
  {| codigo := lit "AP0123";
     valor := lit "350.000,00";
     bairro := lit "Centro";
     cidade := lit "Belo Horizonte";
     areaTotal := AreaNumber (Dec false 120 0);
     areaPrivada := AreaNumber (Dec false 90 0);
     descricaoAdicional := None;
     caracteristicasPrincipais := lit "3 quartos, 2 vagas" |}.

Definition exampleFeatures : jsstring :=
  lit "✅ 3 quartos;" ++ [NEWLINE] ++ lit "✅ 2 vagas;".

(** ** The caption splitter of [handleCopyToClipboard] *)

Definition SEPARATOR : jsstring := Eval cbv in lit " | ".

(** [(firstLine + part + ' | ').length <= 47] *)
Definition fitsFirst (firstLine part : jsstring) : bool :=
  Nat.leb (List.length (firstLine ++ part ++ SEPARATOR)) 47.

(** [line += (line ? ' | ' : '') + part] *)
Definition appendPart (line part : jsstring) : jsstring :=
  line ++ (if truthy line then SEPARATOR else []) ++ part.

(** One turn of the loop on the pair [(firstLine, secondLine)]. *)
Definition placePart (lines : jsstring * jsstring) (part : jsstring)
  : jsstring * jsstring :=
  let (firstLine, secondLine) := lines in
  if fitsFirst firstLine part
  then (appendPart firstLine part, secondLine)
  else (firstLine, appendPart secondLine part).

Definition placeParts (parts : list jsstring) : jsstring * jsstring :=
  fold_left placePart parts ([], []).

(** "Trim trailing separators" *)
Definition finishLines (lines : jsstring * jsstring) : jsstring * jsstring :=
  let (firstLine, secondLine) := lines in
  let firstLine := trim firstLine in
  let secondLine := trim secondLine in
  let firstLine :=
    if endsWith firstLine [PIPE] then trim (sliceDropLast firstLine)
    else firstLine in
  (firstLine, secondLine).

(** The two lines computed for a list of tokens. *)
Definition splitLines (parts : list jsstring) : jsstring * jsstring :=
  finishLines (placeParts parts).

Definition textOf (lines : jsstring * jsstring) : jsstring :=
  let (firstLine, secondLine) := lines in
  if truthy secondLine then firstLine ++ [NEWLINE] ++ secondLine
  else firstLine.

Definition captionLines (generatedStory : jsstring) : jsstring * jsstring :=
  splitLines (split generatedStory SEPARATOR).

(** The text written to the clipboard; nothing when there is no story. *)
Definition handleCopyToClipboard (generatedStory : jsstring)
  : option jsstring :=
  if negb (truthy generatedStory) then None
  else Some (textOf (captionLines generatedStory)).

(** The tokens the loop sends to the first and to the second line, when the
    first line already holds [firstLine]. *)
Fixpoint routeFrom (firstLine : jsstring) (parts : list jsstring)
  : list jsstring * list jsstring :=
  match parts with
  | [] => ([], [])
  | p :: r =>
      if fitsFirst firstLine p
      then let (F, S) := routeFrom (appendPart firstLine p) r in (p :: F, S)
      else let (F, S) := routeFrom firstLine r in (F, p :: S)
  end.

Definition route (parts : list jsstring) : list jsstring * list jsstring :=
  routeFrom [] parts.

(** The raw line the loop builds from the tokens routed to it. *)
Definition glueFrom (line : jsstring) (tokens : list jsstring) : jsstring :=
  fold_left appendPart tokens line.

(** The tokens read back from an output line; an empty line holds none. *)
Definition lineTokens (line : jsstring) : list jsstring :=
  if truthy line then split line SEPARATOR else [].

(** A token as the story prompt asks for it: not empty, no whitespace
    around it, no pipe at its end. *)
Definition cleanToken (t : jsstring) : Prop :=
  t <> [] /\ trim t = t /\ endsWith t [PIPE] = false.

(** A token that [split] finds again once joined with others: it does not
    contain the separator and does not end with a pipe. *)
Definition separable (t : jsstring) : Prop :=
  ~ occursIn SEPARATOR t /\ endsWith t [PIPE] = false.

(** [l] is [xs] and [ys] shuffled together, each in its own order. *)
Inductive Interleave {A : Type} : list A -> list A -> list A -> Prop :=
| Interleave_nil : Interleave [] [] []
| Interleave_left x xs ys l :
    Interleave xs ys l -> Interleave (x :: xs) ys (x :: l)
| Interleave_right y xs ys l :
    Interleave xs ys l -> Interleave xs (y :: ys) (y :: l).

(** ** The story form ([StoryGeneratorForm]) *)

Record storyState : Type := {
  storyLoading : bool;
  generatedStory : jsstring;
  storyToasts : list toastMessage
}.

Inductive storyUpdate : Type :=
| SetStoryLoading (b : bool)
| SetGeneratedStory (s : jsstring)
| StoryToast (t : toastMessage).

Definition applyStoryUpdate (st : storyState) (u : storyUpdate)
  : storyState :=
  match u with
  | SetStoryLoading b =>
      {| storyLoading := b;
         generatedStory := generatedStory st;
         storyToasts := storyToasts st |}
  | SetGeneratedStory s =>
      {| storyLoading := storyLoading st;
         generatedStory := s;
         storyToasts := storyToasts st |}
  | StoryToast t =>
      {| storyLoading := storyLoading st;
         generatedStory := generatedStory st;
         storyToasts := t :: storyToasts st |}
  end.

Definition NO_STORY_TEXT : jsstring := Eval cbv in
  lit "A IA não conseguiu gerar o texto para o story.".
Definition STORY_ERROR_TITLE : jsstring := Eval cbv in
  lit "Erro ao gerar texto".
Definition STORY_SUCCESS_TEXT : jsstring := Eval cbv in
  lit "Texto para Story gerado.".

(** The [try] block of the story form's [onSubmit].  [result] is what the
    awaited [generateStoryText] produced, as typed in the source: the
    result object (absent when it is nullish) with its string field
    [storyText]. *)
Definition tryGenerateStory (result : outcome (option jsstring))
  : outcome jsstring :=
  match result with
  | Throw e => Throw e
  | Return None => Throw (Error NO_STORY_TEXT)
  | Return (Some storyText) =>
      if negb (truthy storyText) then Throw (Error NO_STORY_TEXT)
      else Return storyText
  end.

Definition onSubmitStoryUpdates (result : outcome (option jsstring))
  : list storyUpdate :=
  [SetStoryLoading true; SetGeneratedStory []]
    ++ match tryGenerateStory result with
       | Return text =>
           [SetGeneratedStory text;
            StoryToast {| variant := Default; title := SUCCESS_TITLE;
                          description := STORY_SUCCESS_TEXT |}]
       | Throw e =>
           [StoryToast {| variant := Destructive; title := STORY_ERROR_TITLE;
                          description := errorText e |}]
       end
    ++ [SetStoryLoading false].

Definition onSubmitStory (result : outcome (option jsstring))
    (st : storyState) : storyState :=
  fold_left applyStoryUpdate (onSubmitStoryUpdates result) st.

(** What the page receives from the adapter [generateStoryText], which
    returns [{storyText}] or rejects. *)
Definition storyAdapterResult (flow : outcome jsstring)
  : outcome (option jsstring) :=
  match flow with
  | Return s => Return (Some s)
  | Throw e => Throw e
  end.

(** A caption as the story prompt asks for it: not empty, no whitespace
    around it, no pipe at either end. *)
Definition cleanCaption (c : jsstring) : Prop :=
  c <> [] /\ trim c = c
  /\ startsWith c [PIPE] = false /\ endsWith c [PIPE] = false.

(** The listing with another optional extra text. *)
Definition withExtra (data : PropertyFormData) (extra : option jsstring)
  : PropertyFormData :=
  {| codigo := codigo data;
     valor := valor data;
     bairro := bairro data;
     cidade := cidade data;
     areaTotal := areaTotal data;
     areaPrivada := areaPrivada data;
     descricaoAdicional := extra;
     caracteristicasPrincipais := caracteristicasPrincipais data |}.

(** The first example of the story prompt. *)
Definition storyExample : jsstring := Eval cbv in
  lit "04 Quartos | 02 Suítes | 04 Vagas de Garagem | Área Gourmet | Piscina | Aquecimento Solar".

(** Tokens of 40, 10 and 1 code units. *)
Definition overtakingExample : jsstring :=
  repeat 97%N 40 ++ SEPARATOR ++ repeat 98%N 10 ++ SEPARATOR ++ [99%N].

End Page.

(* ================================================================== *)
(** * Facts about the platform functions *)
(* ================================================================== *)

Section StringFacts.

Implicit Types (s p r : jsstring) (c : char).

Lemma char_eqb_eq c d : char_eqb c d = true <-> c = d.
Proof. unfold char_eqb. apply N.eqb_eq. Qed.

Lemma char_eqb_refl c : char_eqb c c = true.
Proof. apply char_eqb_eq. reflexivity. Qed.

Lemma truthy_false s : truthy s = false <-> s = [].
Proof. destruct s; simpl; split; congruence. Qed.

Lemma truthy_true s : truthy s = true <-> s <> [].
Proof. destruct s; simpl; split; congruence. Qed.

(** ** Prefix and suffix tests *)

Lemma dropPrefix_spec p s r : dropPrefix p s = Some r <-> s = p ++ r.
Proof.
  revert s; induction p as [|a p IH]; intros s; simpl.
  - split; congruence.
  - destruct s as [|b s]; [split; discriminate|].
    destruct (char_eqb a b) eqn:E.
    + apply char_eqb_eq in E; subst b. rewrite IH.
      split; intros H; [now subst | now injection H].
    + split; [discriminate|]. intros H; injection H as -> _.
      rewrite char_eqb_refl in E. discriminate.
Qed.

Lemma startsWith_spec s p : startsWith s p = true <-> exists r, s = p ++ r.
Proof.
  unfold startsWith. destruct (dropPrefix p s) as [r|] eqn:E.
  - apply dropPrefix_spec in E. split; eauto.
  - split; [discriminate|]. intros [r Hr].
    apply dropPrefix_spec in Hr. congruence.
Qed.

Lemma endsWith_spec s p : endsWith s p = true <-> exists r, s = r ++ p.
Proof.
  unfold endsWith. rewrite startsWith_spec. split; intros [r Hr].
  - exists (rev r). apply (f_equal (@rev char)) in Hr.
    rewrite rev_app_distr, !rev_involutive in Hr. exact Hr.
  - exists (rev r). subst s. apply rev_app_distr.
Qed.

Lemma endsWith_char_app r c d : endsWith (r ++ [c]) [d] = char_eqb d c.
Proof.
  unfold endsWith, startsWith. rewrite rev_app_distr. simpl.
  destruct (char_eqb d c); reflexivity.
Qed.

Lemma endsWith_app_right s r d :
  r <> [] -> endsWith (s ++ r) [d] = endsWith r [d].
Proof.
  intros Hr. destruct (exists_last Hr) as (r' & c & ->).
  rewrite app_assoc, !endsWith_char_app. reflexivity.
Qed.

(** ** Trimming *)

Lemma trimStart_length s : List.length (trimStart s) <= List.length s.
Proof.
  induction s as [|c s IH]; simpl; [lia|].
  destruct (isWhiteSpace c); simpl; lia.
Qed.

Lemma trimEnd_length s : List.length (trimEnd s) <= List.length s.
Proof.
  unfold trimEnd. rewrite length_rev.
  etransitivity; [apply trimStart_length|]. rewrite length_rev. lia.
Qed.

Lemma trim_length s : List.length (trim s) <= List.length s.
Proof.
  unfold trim. etransitivity; [apply trimEnd_length|]. apply trimStart_length.
Qed.

Lemma trimStart_head c s :
  isWhiteSpace c = false -> trimStart (c :: s) = c :: s.
Proof. intros H. simpl. rewrite H. reflexivity. Qed.

Lemma trimEnd_last s c :
  isWhiteSpace c = false -> trimEnd (s ++ [c]) = s ++ [c].
Proof.
  intros H. unfold trimEnd. rewrite rev_app_distr. simpl. rewrite H.
  simpl. rewrite rev_involutive. reflexivity.
Qed.

(** Trimming at the start keeps a last code unit that is not whitespace. *)
Lemma trimStart_keeps_last s c :
  isWhiteSpace c = false -> exists r, trimStart (s ++ [c]) = r ++ [c].
Proof.
  intros H. induction s as [|d s IH]; simpl.
  - rewrite H. exists []. reflexivity.
  - destruct (isWhiteSpace d); [exact IH|].
    exists (d :: s). reflexivity.
Qed.

Lemma trim_keeps_last s c :
  isWhiteSpace c = false -> exists r, trim (s ++ [c]) = r ++ [c].
Proof.
  intros H. destruct (trimStart_keeps_last s c H) as [r Hr].
  exists r. unfold trim. rewrite Hr. apply trimEnd_last, H.
Qed.

(** A string that begins and ends with code units that are not whitespace
    is left alone by [trim]. *)
Lemma trim_fixed c s d :
  isWhiteSpace c = false -> isWhiteSpace d = false ->
  forall t, c :: s = t ++ [d] -> trim (c :: s) = c :: s.
Proof.
  intros Hc Hd t E. unfold trim. rewrite trimStart_head by exact Hc.
  rewrite E. apply trimEnd_last, Hd.
Qed.

Lemma removelast_length (s : jsstring) :
  List.length (removelast s) <= List.length s.
Proof.
  induction s as [|c s IH]; simpl; [lia|]. destruct s; simpl in *; lia.
Qed.

End StringFacts.

(* ================================================================== *)
(** * The caption splitter *)
(* ================================================================== *)

Section SplitterFacts.

Import Page.

Implicit Types (parts F S : list jsstring) (f l t : jsstring).

Lemma placeParts_route parts : forall f l,
  fold_left placePart parts (f, l)
  = (glueFrom f (fst (routeFrom f parts)),
     glueFrom l (snd (routeFrom f parts))).
Proof.
  induction parts as [|p parts IH]; intros f l; simpl; [reflexivity|].
  destruct (fitsFirst f p) eqn:E.
  - rewrite IH. destruct (routeFrom (appendPart f p) parts); reflexivity.
  - rewrite IH. destruct (routeFrom f parts); reflexivity.
Qed.

Lemma appendPart_length f t :
  List.length (appendPart f t)
  <= List.length (f ++ t ++ SEPARATOR).
Proof.
  unfold appendPart. rewrite !length_app.
  destruct (truthy f); simpl; lia.
Qed.

Lemma fitsFirst_length f t :
  fitsFirst f t = true <-> List.length f + List.length t + 3 <= 47.
Proof.
  unfold fitsFirst. rewrite Nat.leb_le, !length_app. simpl. lia.
Qed.

(** The loop never lets the first line grow past the budget. *)
Lemma first_line_invariant parts : forall f l,
  List.length f <= 47 ->
  List.length (fst (fold_left placePart parts (f, l))) <= 47.
Proof.
  induction parts as [|p parts IH]; intros f l Hf; simpl; [exact Hf|].
  destruct (fitsFirst f p) eqn:E; apply IH; [|exact Hf].
  etransitivity; [apply appendPart_length|].
  apply fitsFirst_length in E. rewrite !length_app. simpl. lia.
Qed.

Lemma finishLines_first_length f l :
  List.length (fst (finishLines (f, l))) <= List.length f.
Proof.
  simpl. destruct (endsWith (trim f) [PIPE]).
  - etransitivity; [apply trim_length|].
    etransitivity; [apply removelast_length|]. apply trim_length.
  - apply trim_length.
Qed.

(** Every token goes to one of the two lines. *)
Lemma routeFrom_In parts : forall f t,
  In t parts ->
  In t (fst (routeFrom f parts)) \/ In t (snd (routeFrom f parts)).
Proof.
  induction parts as [|p parts IH]; intros f t H; simpl in *; [tauto|].
  destruct (fitsFirst f p).
  - specialize (IH (appendPart f p) t).
    destruct (routeFrom (appendPart f p) parts); simpl in *.
    destruct H as [->|H]; tauto.
  - specialize (IH f t).
    destruct (routeFrom f parts); simpl in *.
    destruct H as [->|H]; tauto.
Qed.

(** A token on the first line passed the length test. *)
Lemma routeFrom_first_fits parts : forall f t,
  In t (fst (routeFrom f parts)) -> List.length t <= 44.
Proof.
  induction parts as [|p parts IH]; intros f t H; simpl in *; [tauto|].
  destruct (fitsFirst f p) eqn:E.
  - specialize (IH (appendPart f p) t).
    destruct (routeFrom (appendPart f p) parts); simpl in *.
    destruct H as [->|H]; [|tauto].
    apply fitsFirst_length in E. lia.
  - specialize (IH f t).
    destruct (routeFrom f parts); simpl in *. tauto.
Qed.

End SplitterFacts.

Section SplitterBudget.

Import Page.

Lemma glueFrom_snoc line tokens t :
  glueFrom line (tokens ++ [t]) = appendPart (glueFrom line tokens) t.
Proof. unfold glueFrom. rewrite fold_left_app. reflexivity. Qed.

Lemma appendPart_endsWith line t c :
  endsWith t [c] = true -> endsWith (appendPart line t) [c] = true.
Proof.
  intros H. unfold appendPart. rewrite app_assoc.
  rewrite endsWith_app_right; [exact H|].
  intros ->. discriminate.
Qed.

Lemma trim_endsWith s c :
  isWhiteSpace c = false ->
  endsWith s [c] = true -> endsWith (trim s) [c] = true.
Proof.
  intros Hc H. apply endsWith_spec in H as [r ->].
  destruct (trim_keeps_last r c Hc) as [r' ->].
  rewrite endsWith_char_app. apply char_eqb_refl.
Qed.

Lemma splitLines_second parts :
  snd (splitLines parts) = trim (snd (placeParts parts)).
Proof.
  unfold splitLines. destruct (placeParts parts) as [f l]. reflexivity.
Qed.

Lemma splitLines_first parts :
  fst (splitLines parts)
  = let f := trim (fst (placeParts parts)) in
    if endsWith f [PIPE] then trim (sliceDropLast f) else f.
Proof.
  unfold splitLines. destruct (placeParts parts) as [f l]. reflexivity.
Qed.

Lemma placeParts_glue parts :
  placeParts parts
  = (glueFrom [] (fst (route parts)), glueFrom [] (snd (route parts))).
Proof. apply placeParts_route. Qed.

(** C1, as amended.  For every list of tokens the first output line is at
    most 47 code units long after trimming, without exception: the two raw
    lines are the tokens routed to them, glued with the separator, and a
    token longer than 44 code units (so also one longer than 47) is never
    routed to the first line but, whole, to the second. *)
Theorem first_line_within_budget (parts : list jsstring) :
  List.length (fst (splitLines parts)) <= 47
  /\ placeParts parts
     = (glueFrom [] (fst (route parts)), glueFrom [] (snd (route parts)))
  /\ (forall t, In t parts -> 44 < List.length t ->
        In t (snd (route parts)) /\ ~ In t (fst (route parts))).
Proof.
  split; [|split].
  - unfold splitLines. destruct (placeParts parts) as [f l] eqn:E.
    etransitivity; [apply finishLines_first_length|].
    change f with (fst (f, l)). rewrite <- E. unfold placeParts.
    apply first_line_invariant. simpl. lia.
  - apply placeParts_glue.
  - intros t Hin Hlen.
    assert (Hno : ~ In t (fst (route parts))).
    { intros H. apply routeFrom_first_fits in H. lia. }
    split; [|exact Hno].
    destruct (routeFrom_In parts [] t Hin) as [H|H]; [contradiction|exact H].
Qed.

Lemma first_line_within_budget_witness :
  let t := repeat 97%N 45 in
  let parts := [[98%N]; t; [99%N]] in
  In t parts /\ 44 < List.length t
  /\ In t (snd (route parts)) /\ ~ In t (fst (route parts)).
Proof.
  intros t parts.
  assert (Hin : In t parts) by (right; left; reflexivity).
  assert (Hlen : 44 < List.length t) by (vm_compute; lia).
  split; [exact Hin|]. split; [exact Hlen|].
  exact (proj2 (proj2 (first_line_within_budget parts)) t Hin Hlen).
Defined.

(** C1 as stated fails: a single token of 48 code units is not placed on
    the first line; the first line is empty and the token is the second
    line. *)
Lemma oversized_token_not_on_first_line :
  let t := repeat 97%N 48 in
  47 < List.length t
  /\ fst (captionLines t) <> t
  /\ captionLines t = ([], t)
  /\ handleCopyToClipboard t = Some (NEWLINE :: t).
Proof.
  repeat split; try reflexivity.
  - vm_compute. lia.
  - vm_compute. discriminate.
Qed.

(** C10.  Only the first line has a trailing pipe removed.  When the last
    token routed to the second line ends with a pipe, the second line is the
    trimmed raw line and still ends with that pipe, and so does the copied
    text; when the trimmed first line ends with a pipe, that code unit is
    cut off. *)
Theorem second_line_keeps_trailing_pipe (parts : list jsstring) :
  (forall S t,
      snd (route parts) = S ++ [t] -> endsWith t [PIPE] = true ->
      snd (splitLines parts) = trim (snd (placeParts parts))
      /\ endsWith (snd (splitLines parts)) [PIPE] = true
      /\ textOf (splitLines parts)
         = fst (splitLines parts) ++ [NEWLINE] ++ snd (splitLines parts)
      /\ endsWith (textOf (splitLines parts)) [PIPE] = true)
  /\ (endsWith (trim (fst (placeParts parts))) [PIPE] = true ->
      fst (splitLines parts)
      = trim (sliceDropLast (trim (fst (placeParts parts))))
      /\ List.length (fst (splitLines parts))
         < List.length (trim (fst (placeParts parts)))).
Proof.
  split.
  - intros S t HS Ht.
    assert (Hraw : endsWith (snd (placeParts parts)) [PIPE] = true).
    { rewrite placeParts_glue. simpl. rewrite HS, glueFrom_snoc.
      apply appendPart_endsWith, Ht. }
    assert (Hl : endsWith (snd (splitLines parts)) [PIPE] = true).
    { rewrite splitLines_second. apply trim_endsWith; [reflexivity|exact Hraw]. }
    split; [apply splitLines_second|]. split; [exact Hl|].
    destruct (splitLines parts) as [f l]; simpl in *.
    destruct l as [|c l]; [discriminate|]. simpl.
    split; [reflexivity|].
    change (f ++ NEWLINE :: c :: l) with (f ++ [NEWLINE] ++ c :: l).
    rewrite app_assoc. rewrite endsWith_app_right by discriminate. exact Hl.
  - intros H. rewrite splitLines_first. cbv zeta. rewrite H.
    split; [reflexivity|].
    apply endsWith_spec in H as [r Hr]. rewrite Hr.
    unfold sliceDropLast. rewrite removelast_last.
    pose proof (trim_length r). rewrite length_app. simpl. lia.
Qed.

Lemma second_line_keeps_trailing_pipe_witness :
  let parts := [repeat 97%N 44; [98%N; PIPE]] in
  snd (route parts) = [] ++ [[98%N; PIPE]]
  /\ endsWith [98%N; PIPE] [PIPE] = true
  /\ endsWith (snd (splitLines parts)) [PIPE] = true
  /\ endsWith (textOf (splitLines parts)) [PIPE] = true.
Proof.
  intros parts.
  assert (HS : snd (route parts) = [] ++ [[98%N; PIPE]]) by reflexivity.
  assert (Ht : endsWith [98%N; PIPE] [PIPE] = true) by reflexivity.
  split; [exact HS|]. split; [exact Ht|].
  destruct (proj1 (second_line_keeps_trailing_pipe parts) [] _ HS Ht)
    as (_ & H1 & _ & H2).
  split; assumption.
Defined.

End SplitterBudget.

(* ================================================================== *)
(** * [split] and [join] *)
(* ================================================================== *)

Section SplitFacts.

Variable sep : jsstring.
Hypothesis sep_nonempty : sep <> [].

Lemma dropPrefix_shorter s rest :
  dropPrefix sep s = Some rest -> List.length rest < List.length s.
Proof.
  intros H. apply dropPrefix_spec in H. subst s. rewrite length_app.
  destruct sep; [contradiction|]. simpl. lia.
Qed.

(** Any fuel that covers the length of the string gives the same result. *)
Lemma splitFuel_enough fuel1 : forall fuel2 s,
  List.length s <= fuel1 -> List.length s <= fuel2 ->
  splitFuel fuel1 sep s = splitFuel fuel2 sep s.
Proof.
  induction fuel1 as [|fuel1 IH]; intros fuel2 s H1 H2.
  - destruct s; [destruct fuel2; reflexivity | simpl in H1; lia].
  - destruct s as [|c s]; [destruct fuel2; reflexivity|].
    destruct fuel2 as [|fuel2]; [simpl in H2; lia|].
    simpl in *. destruct (dropPrefix sep (c :: s)) as [rest|] eqn:E.
    + apply dropPrefix_shorter in E. simpl in E.
      f_equal. apply IH; lia.
    + f_equal. apply IH; lia.
Qed.

Lemma split_nil : split [] sep = [[]].
Proof. reflexivity. Qed.

Lemma split_cons c s :
  split (c :: s) sep
  = match dropPrefix sep (c :: s) with
    | Some rest => [] :: split rest sep
    | None => consHead c (split s sep)
    end.
Proof.
  unfold split. simpl List.length. cbn [splitFuel].
  destruct (dropPrefix sep (c :: s)) as [rest|] eqn:E.
  - apply dropPrefix_shorter in E. simpl in E.
    f_equal. apply splitFuel_enough; lia.
  - reflexivity.
Qed.

(** Induction along the computation of [split]. *)
Lemma split_induction (P : jsstring -> list jsstring -> Prop) :
  P [] [[]] ->
  (forall c s rest,
      dropPrefix sep (c :: s) = Some rest ->
      P rest (split rest sep) -> P (c :: s) ([] :: split rest sep)) ->
  (forall c s,
      dropPrefix sep (c :: s) = None ->
      P s (split s sep) -> P (c :: s) (consHead c (split s sep))) ->
  forall s, P s (split s sep).
Proof.
  intros Hnil Hcut Hstep s.
  remember (List.length s) as n eqn:Hn.
  revert s Hn. induction n as [n IH] using lt_wf_ind. intros s Hn.
  destruct s as [|c s]; [exact Hnil|].
  rewrite split_cons.
  destruct (dropPrefix sep (c :: s)) as [rest|] eqn:E.
  - apply Hcut; [exact E|].
    apply (IH (List.length rest)); [|reflexivity].
    apply dropPrefix_shorter in E. lia.
  - apply Hstep; [exact E|].
    apply (IH (List.length s)); [|reflexivity]. subst n. simpl. lia.
Qed.

(** [split] always returns at least one token, and the first token is a
    prefix of the string. *)
Lemma split_head_prefix s :
  exists h tl rest, split s sep = h :: tl /\ s = h ++ rest.
Proof.
  apply split_induction with (s := s).
  - exists [], [], []. split; reflexivity.
  - intros c s0 rest _ _. exists [], (split rest sep), (c :: s0).
    split; reflexivity.
  - intros c s0 _ (h & tl & rest & E & Hs).
    exists (c :: h), tl, rest. rewrite E. split; [reflexivity|].
    simpl. f_equal. exact Hs.
Qed.

Lemma occursIn_nil : ~ occursIn sep [].
Proof.
  intros (pre & post & H). symmetry in H.
  apply app_eq_nil in H as [_ H]. apply app_eq_nil in H as [H _].
  contradiction.
Qed.

(** No token returned by [split] contains the separator. *)
Lemma split_tokens_free s :
  forall t, In t (split s sep) -> ~ occursIn sep t.
Proof.
  apply split_induction with (s := s).
  - intros t [<-|[]]. apply occursIn_nil.
  - intros c s0 rest _ IH t [<-|H]; [apply occursIn_nil | apply IH, H].
  - intros c s0 E IH t H.
    destruct (split_head_prefix s0) as (h & tl & rest & Eh & Hs).
    rewrite Eh in H, IH. simpl in H. destruct H as [<-|H].
    + intros (pre & post & Hocc). destruct pre as [|a pre].
      * simpl in Hocc.
        assert (dropPrefix sep (c :: s0) = Some (post ++ rest)) as E'.
        { apply dropPrefix_spec. rewrite Hs, app_comm_cons, Hocc.
          rewrite <- app_assoc. reflexivity. }
        congruence.
      * simpl in Hocc. injection Hocc as _ Hocc.
        apply (IH h (or_introl eq_refl)). exists pre, post. exact Hocc.
    + apply IH. right. exact H.
Qed.

End SplitFacts.

(* ================================================================== *)
(** * Reading the tokens back from the two lines *)
(* ================================================================== *)

Section TrimFixedPoints.

Lemma trimEnd_ws_last s d :
  isWhiteSpace d = true -> trimEnd (s ++ [d]) = trimEnd s.
Proof.
  intros H. unfold trimEnd. rewrite rev_app_distr. simpl. rewrite H.
  reflexivity.
Qed.

Lemma trimStart_snoc_cases s d :
  trimStart (s ++ [d]) = []
  \/ exists u, trimStart (s ++ [d]) = u ++ [d]
               /\ List.length u <= List.length s.
Proof.
  induction s as [|c s IH]; simpl.
  - destruct (isWhiteSpace d); [left; reflexivity|].
    right. exists []. split; [reflexivity | simpl; lia].
  - destruct (isWhiteSpace c).
    + destruct IH as [IH|(u & Hu & Hlen)]; [left; exact IH|].
      right. exists u. split; [exact Hu | lia].
    + right. exists (c :: s). split; [reflexivity | simpl; lia].
Qed.

Lemma trim_fixed_head c s : trim (c :: s) = c :: s -> isWhiteSpace c = false.
Proof.
  intros H. destruct (isWhiteSpace c) eqn:E; [|reflexivity].
  exfalso. apply (f_equal (@List.length char)) in H.
  unfold trim in H. simpl trimStart in H. rewrite E in H.
  pose proof (trimEnd_length (trimStart s)).
  pose proof (trimStart_length s). simpl in H. lia.
Qed.

Lemma trim_fixed_last s d :
  trim (s ++ [d]) = s ++ [d] -> isWhiteSpace d = false.
Proof.
  intros H. destruct (isWhiteSpace d) eqn:E; [|reflexivity].
  exfalso. unfold trim in H.
  destruct (trimStart_snoc_cases s d) as [H0|(u & Hu & Hlen)].
  - rewrite H0 in H. destruct s; discriminate.
  - rewrite Hu, trimEnd_ws_last in H by exact E.
    apply (f_equal (@List.length char)) in H.
    pose proof (trimEnd_length u). rewrite length_app in H. simpl in H. lia.
Qed.

End TrimFixedPoints.

Section TokensBack.

Import Page.

Lemma SEPARATOR_nonempty : SEPARATOR <> [].
Proof. discriminate. Qed.

Lemma cleanToken_head t :
  cleanToken t -> exists c r, t = c :: r /\ isWhiteSpace c = false.
Proof.
  intros (Hne & Htrim & _). destruct t as [|c r]; [contradiction|].
  exists c, r. split; [reflexivity|]. apply trim_fixed_head with r, Htrim.
Qed.

Lemma cleanToken_last t :
  cleanToken t ->
  exists r d, t = r ++ [d] /\ isWhiteSpace d = false /\ char_eqb PIPE d = false.
Proof.
  intros (Hne & Htrim & Hpipe). destruct (exists_last Hne) as (r & d & ->).
  exists r, d. split; [reflexivity|]. split.
  - apply trim_fixed_last with r, Htrim.
  - rewrite endsWith_char_app in Hpipe. exact Hpipe.
Qed.

(** ** The raw lines are the routed tokens joined by the separator *)

Lemma join_merge_head a t F :
  join ((a ++ SEPARATOR ++ t) :: F) SEPARATOR
  = a ++ SEPARATOR ++ join (t :: F) SEPARATOR.
Proof.
  destruct F as [|t2 F]; [reflexivity|].
  cbn [join]. rewrite <- !app_assoc. reflexivity.
Qed.

Lemma glueFrom_nonempty F : forall line,
  line <> [] -> glueFrom line F = join (line :: F) SEPARATOR.
Proof.
  induction F as [|t F IH]; intros line Hne; [reflexivity|].
  unfold glueFrom in *. cbn [fold_left].
  assert (E : appendPart line t = line ++ SEPARATOR ++ t).
  { unfold appendPart. destruct line; [contradiction | reflexivity]. }
  rewrite E, IH.
  - apply join_merge_head.
  - destruct line; [contradiction | discriminate].
Qed.

Lemma glueFrom_join F :
  Forall (fun t => t <> []) F -> glueFrom [] F = join F SEPARATOR.
Proof.
  intros H. destruct F as [|t F]; [reflexivity|].
  inversion H as [|? ? Ht _]; subst.
  unfold glueFrom. cbn [fold_left].
  change (appendPart [] t) with ([] ++ [] ++ t). simpl.
  apply glueFrom_nonempty, Ht.
Qed.

Lemma join_head t F sepr : exists X, join (t :: F) sepr = t ++ X.
Proof.
  destruct F as [|t2 F].
  - exists []. simpl. rewrite app_nil_r. reflexivity.
  - eexists. reflexivity.
Qed.

Lemma join_last F sepr :
  F <> [] -> exists Y, join F sepr = Y ++ last F [].
Proof.
  induction F as [|t F IH]; [contradiction|]. intros _.
  destruct F as [|t2 F].
  - exists []. reflexivity.
  - destruct IH as [Y HY]; [discriminate|].
    exists (t ++ sepr ++ Y). cbn [join] in *. rewrite HY.
    rewrite <- !app_assoc. reflexivity.
Qed.

(** ** Finishing leaves a line of clean tokens as it is *)

Lemma join_clean_fixed F :
  Forall cleanToken F ->
  trim (join F SEPARATOR) = join F SEPARATOR
  /\ endsWith (join F SEPARATOR) [PIPE] = false.
Proof.
  intros H. destruct F as [|t F]; [split; reflexivity|].
  assert (Hlast : cleanToken (last (t :: F) [])).
  { rewrite Forall_forall in H. apply H.
    destruct (@exists_last _ (t :: F)) as (F' & x & E); [discriminate|].
    rewrite E, last_last. apply in_or_app. right. left. reflexivity. }
  inversion H as [|? ? Ht _]; subst.
  destruct (cleanToken_head t Ht) as (c & r & -> & Hc).
  destruct (cleanToken_last _ Hlast) as (r' & d & Hd & Hws & Hpipe).
  destruct (join_head (c :: r) F SEPARATOR) as [X HX].
  destruct (join_last ((c :: r) :: F) SEPARATOR) as [Y HY];
    [discriminate|].
  rewrite Hd, app_assoc in HY. split.
  - rewrite HX. simpl. apply trim_fixed with d (Y ++ r'); [exact Hc|exact Hws|].
    rewrite <- HY. symmetry. exact HX.
  - rewrite HY, endsWith_char_app. exact Hpipe.
Qed.

Lemma finishLines_clean F S :
  Forall cleanToken F -> Forall cleanToken S ->
  finishLines (join F SEPARATOR, join S SEPARATOR)
  = (join F SEPARATOR, join S SEPARATOR).
Proof.
  intros HF HS. unfold finishLines.
  destruct (join_clean_fixed F HF) as [-> ->].
  destruct (join_clean_fixed S HS) as [-> _]. reflexivity.
Qed.

End TokensBack.

Section SplitJoin.

Import Page.

(** The separator cannot start inside a token that does not contain it and
    does not end with a pipe, whether the token is followed by a separator
    or by nothing. *)
Lemma no_separator_start t X :
  t <> [] -> ~ occursIn SEPARATOR t -> endsWith t [PIPE] = false ->
  X = [] \/ (exists rest, X = SEPARATOR ++ rest) ->
  dropPrefix SEPARATOR (t ++ X) = None.
Proof.
  intros Hne Hfree Hpipe HX.
  destruct (dropPrefix SEPARATOR (t ++ X)) as [r|] eqn:E; [|reflexivity].
  exfalso. apply dropPrefix_spec in E.
  destruct t as [|a [|b [|c t]]]; [contradiction| | |].
  - destruct HX as [->|[rest ->]]; discriminate.
  - simpl in E. injection E as -> -> _. discriminate.
  - simpl in E. injection E as -> -> -> _.
    apply Hfree. exists [], t. reflexivity.
Qed.

Lemma occursIn_tail c t : ~ occursIn SEPARATOR (c :: t) -> ~ occursIn SEPARATOR t.
Proof.
  intros H (pre & post & E). apply H. exists (c :: pre), post.
  rewrite E. reflexivity.
Qed.

Lemma endsWith_tail c t d :
  endsWith (c :: t) [d] = false -> endsWith t [d] = false.
Proof.
  destruct t as [|b t]; [reflexivity|]. intros H.
  change (c :: b :: t) with ([c] ++ b :: t) in H.
  rewrite endsWith_app_right in H by discriminate. exact H.
Qed.

(** Splitting a clean token followed by a separator, or by nothing, gives
    the token back at the head. *)
Lemma split_token_app t : forall X,
  ~ occursIn SEPARATOR t -> endsWith t [PIPE] = false ->
  X = [] \/ (exists rest, X = SEPARATOR ++ rest) ->
  split (t ++ X) SEPARATOR
  = match split X SEPARATOR with
    | h :: tl => (t ++ h) :: tl
    | [] => [t]
    end.
Proof.
  induction t as [|c t IH]; intros X Hfree Hpipe HX.
  - simpl. destruct (split_head_prefix SEPARATOR SEPARATOR_nonempty X)
      as (h & tl & rest & -> & _). reflexivity.
  - change ((c :: t) ++ X) with (c :: (t ++ X)).
    rewrite (split_cons SEPARATOR SEPARATOR_nonempty).
    change (c :: (t ++ X)) with ((c :: t) ++ X).
    rewrite no_separator_start by (auto; discriminate).
    rewrite IH by eauto using occursIn_tail, endsWith_tail.
    destruct (split X SEPARATOR); reflexivity.
Qed.

Lemma split_separator_app rest :
  split (SEPARATOR ++ rest) SEPARATOR = [] :: split rest SEPARATOR.
Proof.
  change (SEPARATOR ++ rest) with (32%N :: ([124%N; 32%N] ++ rest)).
  rewrite (split_cons SEPARATOR SEPARATOR_nonempty).
  replace (dropPrefix SEPARATOR (32%N :: ([124%N; 32%N] ++ rest)))
    with (Some rest); [reflexivity|].
  symmetry. apply dropPrefix_spec. reflexivity.
Qed.

(** Joining and splitting again gives the tokens back. *)
Lemma split_join F :
  F <> [] -> Forall separable F ->
  split (join F SEPARATOR) SEPARATOR = F.
Proof.
  induction F as [|t F IH]; [contradiction|]. intros _ H.
  inversion H as [|? ? [Hfree Hpipe] HF]; subst.
  destruct F as [|t2 F].
  - simpl. rewrite <- (app_nil_r t) at 1.
    rewrite split_token_app by auto. simpl. rewrite app_nil_r. reflexivity.
  - cbn [join]. rewrite split_token_app by eauto.
    rewrite split_separator_app, app_nil_r. f_equal.
    apply IH; [discriminate | exact HF].
Qed.

Lemma lineTokens_join F :
  Forall (fun t => t <> []) F -> Forall separable F ->
  lineTokens (join F SEPARATOR) = F.
Proof.
  intros Hne Hsep. destruct F as [|t F]; [reflexivity|].
  unfold lineTokens.
  destruct (join_head t F SEPARATOR) as [X HX].
  inversion Hne as [|? ? Ht _]; subst.
  assert (Htr : truthy (join (t :: F) SEPARATOR) = true).
  { rewrite HX. destruct t; [contradiction | reflexivity]. }
  rewrite Htr. apply split_join; [discriminate | exact Hsep].
Qed.

(** ** The routed tokens partition the input *)

Lemma routeFrom_interleave parts : forall f,
  Interleave (fst (routeFrom f parts)) (snd (routeFrom f parts)) parts.
Proof.
  induction parts as [|p parts IH]; intros f; simpl; [constructor|].
  destruct (fitsFirst f p).
  - specialize (IH (appendPart f p)).
    destruct (routeFrom (appendPart f p) parts). simpl in *.
    constructor. exact IH.
  - specialize (IH f). destruct (routeFrom f parts). simpl in *.
    constructor. exact IH.
Qed.

Lemma Interleave_Permutation (A : Type) (xs ys l : list A) :
  Interleave xs ys l -> Permutation (xs ++ ys) l.
Proof.
  induction 1; simpl.
  - constructor.
  - constructor. assumption.
  - apply Permutation_sym, Permutation_cons_app, Permutation_sym. assumption.
Qed.

Lemma Interleave_In_left (A : Type) (xs ys l : list A) :
  Interleave xs ys l -> forall x, In x xs -> In x l.
Proof. induction 1; simpl; intros z Hz; intuition. Qed.

Lemma Interleave_In_right (A : Type) (xs ys l : list A) :
  Interleave xs ys l -> forall y, In y ys -> In y l.
Proof. induction 1; simpl; intros z Hz; intuition. Qed.

(** For clean tokens obtained by [split], the two output lines are the
    routed tokens joined by the separator, and they read back as such. *)
Lemma captionLines_clean s :
  Forall cleanToken (split s SEPARATOR) ->
  let parts := split s SEPARATOR in
  captionLines s
  = (join (fst (route parts)) SEPARATOR, join (snd (route parts)) SEPARATOR)
  /\ lineTokens (fst (captionLines s)) = fst (route parts)
  /\ lineTokens (snd (captionLines s)) = snd (route parts).
Proof.
  intros Hclean parts. fold parts in Hclean.
  pose proof (routeFrom_interleave parts []) as HI. fold (route parts) in HI.
  assert (HF : Forall cleanToken (fst (route parts))).
  { rewrite Forall_forall in *. intros t Ht.
    apply Hclean. eapply Interleave_In_left; eauto. }
  assert (HS : Forall cleanToken (snd (route parts))).
  { rewrite Forall_forall in *. intros t Ht.
    apply Hclean. eapply Interleave_In_right; eauto. }
  assert (Hsep : forall T, (forall t, In t T -> In t parts) ->
                           Forall cleanToken T ->
                           Forall (fun t => t <> []) T /\ Forall separable T).
  { intros T Hin HT. rewrite !Forall_forall in *. split; intros t Ht.
    - apply HT, Ht.
    - split; [|apply HT, Ht].
      apply (split_tokens_free SEPARATOR SEPARATOR_nonempty s), Hin, Ht. }
  destruct (Hsep _ (Interleave_In_left _ _ _ _ HI) HF) as [HF1 HF2].
  destruct (Hsep _ (Interleave_In_right _ _ _ _ HI) HS) as [HS1 HS2].
  assert (E : captionLines s
              = (join (fst (route parts)) SEPARATOR,
                 join (snd (route parts)) SEPARATOR)).
  { unfold captionLines, splitLines. fold parts.
    rewrite placeParts_glue, !glueFrom_join by assumption.
    apply finishLines_clean; assumption. }
  rewrite E. simpl. repeat split.
  - apply lineTokens_join; assumption.
  - apply lineTokens_join; assumption.
Qed.

End SplitJoin.

Section SplitterCoverage.

Import Page.

(** Closes [Forall cleanToken l] on a list of literal tokens. *)
Ltac clean_tokens :=
  vm_compute;
  repeat (apply Forall_cons;
          [split; [discriminate | split; reflexivity]|]);
  apply Forall_nil.

(** C2, as amended.  For an input whose tokens (obtained by splitting on
    the separator) are clean, splitting each output line on the separator
    gives back the tokens routed to that line, each line in the original
    order: the original sequence is an interleaving of the first-line and
    second-line tokens, none dropped and none duplicated.  The first-line
    tokens followed by the second-line tokens are the original sequence
    whenever the routing cuts the sequence in two at one point. *)
Theorem tokens_read_back_per_line (s : jsstring) :
  Forall cleanToken (split s SEPARATOR) ->
  let parts := split s SEPARATOR in
  let lines := captionLines s in
  lineTokens (fst lines) = fst (route parts)
  /\ lineTokens (snd lines) = snd (route parts)
  /\ Interleave (lineTokens (fst lines)) (lineTokens (snd lines)) parts
  /\ (forall k, route parts = (firstn k parts, skipn k parts) ->
        lineTokens (fst lines) ++ lineTokens (snd lines) = parts).
Proof.
  intros Hclean parts lines.
  destruct (captionLines_clean s Hclean) as (_ & HF & HS).
  fold parts in HF, HS. fold lines in HF, HS.
  split; [exact HF|]. split; [exact HS|]. rewrite HF, HS. split.
  - apply routeFrom_interleave.
  - intros k Hk. rewrite Hk. simpl. apply firstn_skipn.
Qed.

Lemma tokens_read_back_per_line_witness :
  Forall cleanToken (split storyExample SEPARATOR)
  /\ lineTokens (fst (captionLines storyExample))
       ++ lineTokens (snd (captionLines storyExample))
     = split storyExample SEPARATOR.
Proof.
  assert (H : Forall cleanToken (split storyExample SEPARATOR))
    by clean_tokens.
  split; [exact H|].
  destruct (tokens_read_back_per_line storyExample H) as (_ & _ & _ & Hk).
  apply (Hk 3). reflexivity.
Defined.

(** C2 as stated fails: with tokens of 40, 10 and 1 code units the second
    token overflows and the third still fits, so the lines hold the tokens
    in the order first, third, second, however the two lines are put
    together before splitting again. *)
Lemma later_token_overtakes :
  let a := repeat 97%N 40 in
  let b := repeat 98%N 10 in
  let c := [99%N] in
  let s := a ++ SEPARATOR ++ b ++ SEPARATOR ++ c in
  let lines := captionLines s in
  split s SEPARATOR = [a; b; c]
  /\ lines = (a ++ SEPARATOR ++ c, b)
  /\ lineTokens (fst lines) ++ lineTokens (snd lines) = [a; c; b]
  /\ lineTokens (fst lines) ++ lineTokens (snd lines) <> split s SEPARATOR
  /\ split (fst lines ++ snd lines) SEPARATOR <> split s SEPARATOR
  /\ split (fst lines ++ SEPARATOR ++ snd lines) SEPARATOR
     <> split s SEPARATOR
  /\ split (textOf lines) SEPARATOR <> split s SEPARATOR.
Proof.
  vm_compute. repeat split; try reflexivity; intros H; discriminate H.
Qed.

(** C8, as amended.  For an input whose tokens are not empty, trimmed and
    not ended by a pipe, every token is found exactly once on the two output
    lines: the tokens read back from the lines are a permutation of the
    input tokens, with the same number of occurrences of each. *)
Theorem every_token_exactly_once (s : jsstring) :
  Forall cleanToken (split s SEPARATOR) ->
  let parts := split s SEPARATOR in
  let found := lineTokens (fst (captionLines s))
               ++ lineTokens (snd (captionLines s)) in
  Permutation found parts
  /\ (forall t, count_occ (list_eq_dec N.eq_dec) found t
                = count_occ (list_eq_dec N.eq_dec) parts t).
Proof.
  intros Hclean parts found.
  assert (HP : Permutation found parts).
  { destruct (captionLines_clean s Hclean) as (_ & HF & HS).
    unfold found. rewrite HF, HS.
    apply Interleave_Permutation, routeFrom_interleave. }
  split; [exact HP|].
  apply (Permutation_count_occ (list_eq_dec N.eq_dec)), HP.
Qed.

Lemma every_token_exactly_once_witness :
  Forall cleanToken (split overtakingExample SEPARATOR)
  /\ Permutation
       (lineTokens (fst (captionLines overtakingExample))
        ++ lineTokens (snd (captionLines overtakingExample)))
       (split overtakingExample SEPARATOR).
Proof.
  assert (H : Forall cleanToken (split overtakingExample SEPARATOR))
    by clean_tokens.
  split; [exact H|].
  exact (proj1 (every_token_exactly_once overtakingExample H)).
Defined.

(** C8 as stated fails on an empty token.  The story below is trimmed and
    has no pipe at either end; its tokens are trimmed and none ends with a
    pipe; the empty second token is glued to the first line and then lost
    when the trailing pipe of that line is cut: three tokens go in, two
    come out. *)
Lemma empty_token_is_lost :
  let a := repeat 97%N 44 in
  let s := a ++ SEPARATOR ++ SEPARATOR ++ [98%N] in
  let parts := split s SEPARATOR in
  let found := lineTokens (fst (captionLines s))
               ++ lineTokens (snd (captionLines s)) in
  StoryFlow.stripPipes s = s
  /\ parts = [a; []; [98%N]]
  /\ Forall (fun t => trim t = t /\ endsWith t [PIPE] = false) parts
  /\ captionLines s = (a, [98%N])
  /\ found = [a; [98%N]]
  /\ ~ Permutation found parts.
Proof.
  intros a s parts found.
  assert (Hf : found = [a; [98%N]]) by (vm_compute; reflexivity).
  assert (Hp : parts = [a; []; [98%N]]) by (vm_compute; reflexivity).
  split; [vm_compute; reflexivity|]. split; [exact Hp|]. split.
  - rewrite Hp. repeat (apply Forall_cons; [split; reflexivity|]).
    apply Forall_nil.
  - split; [vm_compute; reflexivity|]. split; [exact Hf|].
    rewrite Hf, Hp. intros H. apply Permutation_length in H. discriminate H.
Qed.

End SplitterCoverage.

(* ================================================================== *)
(** * Currency formatting, assembly and the error path of [onSubmit] *)
(* ================================================================== *)

Section Description.

Import Page.

(** C5.  The price ["350.000,00"] is read as 350000.00 and formatted as
    [R$ 350.000,00] (with a no-break space after the symbol); a price whose
    normalized form [parseFloat] reads as NaN, such as ["abc"], is returned
    as it was given. *)
Theorem currency_format_and_fallback (valueStr : jsstring) :
  (normalizePrice (lit "350.000,00") = lit "350000.00"
   /\ parseFloat (lit "350000.00") = Dec false 35000000 (-2)
   /\ formatCurrency (lit "350.000,00")
      = lit "R$" ++ NBSP ++ lit "350.000,00")
  /\ (normalizePrice (lit "abc") = lit "abc"
      /\ parseFloat (lit "abc") = NaN
      /\ formatCurrency (lit "abc") = lit "abc")
  /\ (isNaN (parseFloat (normalizePrice valueStr)) = true ->
      formatCurrency valueStr = valueStr).
Proof.
  split; [repeat split; vm_compute; reflexivity|].
  split; [repeat split; vm_compute; reflexivity|].
  intros H. unfold formatCurrency. rewrite H. reflexivity.
Qed.

Lemma currency_format_and_fallback_witness :
  isNaN (parseFloat (normalizePrice (lit "R$ n/d"))) = true
  /\ formatCurrency (lit "R$ n/d") = lit "R$ n/d".
Proof.
  assert (H : isNaN (parseFloat (normalizePrice (lit "R$ n/d"))) = true)
    by (vm_compute; reflexivity).
  split; [exact H|].
  exact (proj2 (proj2 (currency_format_and_fallback (lit "R$ n/d"))) H).
Defined.

Lemma endsWith_join_last parts x c :
  endsWith x [c] = false -> x <> [] ->
  endsWith (join (parts ++ [x]) [NEWLINE]) [c] = false.
Proof.
  intros Hx Hne.
  destruct (join_last (parts ++ [x]) [NEWLINE]) as [Y HY].
  - destruct parts; discriminate.
  - rewrite HY, last_last, endsWith_app_right by exact Hne. exact Hx.
Qed.

(** C6.  The description assembled for the example listing, line by line;
    what it begins with and contains; it is what [onSubmit] displays; and
    for every listing and feature block the text ends with the last contact
    line, not with a newline. *)
Theorem end_to_end_assembly :
  let nl := [NEWLINE] in
  let text := assembleDescription exampleListing exampleFeatures in
  text
  = lit "CENTRO - BELO HORIZONTE/MG" ++ nl
    ++ nl
    ++ lit "Código do imóvel: AP0123" ++ nl
    ++ nl
    ++ lit "CARACTERÍSTICAS PRINCIPAIS:" ++ nl
    ++ lit "✅ 3 quartos;" ++ nl
    ++ lit "✅ 2 vagas;" ++ nl
    ++ nl
    ++ lit "Área Total: 120 m²" ++ nl
    ++ lit "Área Privada: 90 m²" ++ nl
    ++ lit "💰VALOR: R$" ++ NBSP ++ lit "350.000,00" ++ nl
    ++ nl
    ++ lit "Agende uma visita hoje mesmo com nossa equipe:" ++ nl
    ++ lit "📲(31) 9 9859 0590 / 3058-1600" ++ nl
    ++ lit "Avenida Acadêmico Nilo Figueiredo, 3273, Santos Dumont II, Lagoa Santa/MG"
  /\ startsWith text (lit "CENTRO - BELO HORIZONTE/MG") = true
  /\ includes text (lit "Código do imóvel: AP0123") = true
  /\ includes text
       (lit "CARACTERÍSTICAS PRINCIPAIS:" ++ nl ++ exampleFeatures ++ nl)
     = true
  /\ includes text (lit "Área Total: 120 m²") = true
  /\ includes text (lit "Área Privada: 90 m²") = true
  /\ includes text
       (nl ++ lit "💰VALOR: "
           ++ formatCurrencyBRL (Dec false 350000 0) ++ nl) = true
  /\ (forall st,
        generatedDescription
          (onSubmit (Return (Fields (VString exampleFeatures)))
             exampleListing st) = text)
  /\ (forall data formattedFeatures,
        endsWith (assembleDescription data formattedFeatures) nl = false).
Proof.
  intros nl text.
  do 7 (split; [vm_compute; reflexivity|]).
  split; [intros st; reflexivity|].
  intros data ff. unfold assembleDescription, descriptionParts.
  rewrite !app_assoc. apply endsWith_join_last; [reflexivity|discriminate].
Qed.

(** C7.  When the adapter's result is empty or not a string, [onSubmit]
    never sets the description to anything but the empty text, so every
    state the form goes through from the first clearing on displays none;
    it ends with an empty description, one error toast added and the
    loading state off.  The same holds when the result is what either
    revision of the flow makes of a prompt output whose field is empty or
    not a string. *)
Theorem upstream_empty_is_atomic (aiResult : response)
    (data : PropertyFormData) (st : formState) :
  usable aiResult = false ->
  let failed (r : outcome response) :=
    (forall d, In (SetGeneratedDescription d) (onSubmitUpdates r data) ->
               d = [])
    /\ (forall st', In st' (tl (statesAfter st (onSubmitUpdates r data))) ->
                    generatedDescription st' = [])
    /\ generatedDescription (onSubmit r data st) = []
    /\ isLoading (onSubmit r data st) = false
    /\ exists message,
         toasts (onSubmit r data st)
         = {| variant := Destructive; title := ERROR_TITLE;
              description := message |} :: toasts st in
  failed (Return aiResult)
  /\ failed (adapterResult
               (FeatureFlow.formatPropertyFeaturesFlow (Return aiResult)))
  /\ failed (adapterResult
               (FeatureFlowLines.formatPropertyFeaturesFlow
                  (Return aiResult))).
Proof.
  intros H failed. unfold failed.
  destruct aiResult as [|[| |[|c s]|[|]]]; try discriminate H;
    (split; [|split]);
    (split; [intros d Hd; simpl in Hd; intuition congruence|]);
    (split; [intros st' Hst; simpl in Hst;
             intuition (subst; reflexivity)|]);
    (split; [reflexivity|split; [reflexivity|]]);
    eexists; reflexivity.
Qed.

Lemma upstream_empty_is_atomic_witness :
  let st := {| isLoading := false;
               generatedDescription := lit "texto anterior";
               toasts := [] |} in
  usable (Fields (VString [])) = false
  /\ generatedDescription
       (onSubmit (Return (Fields (VString []))) exampleListing st) = [].
Proof.
  intros st.
  assert (H : usable (Fields (VString [])) = false) by reflexivity.
  split; [exact H|].
  destruct (upstream_empty_is_atomic (Fields (VString [])) exampleListing st H)
    as [(_ & _ & Hd & _) _].
  exact Hd.
Defined.

End Description.

(* ================================================================== *)
(** * More on trimming *)
(* ================================================================== *)

Section TrimShape.

Lemma trimStart_head_nonws s c r :
  trimStart s = c :: r -> isWhiteSpace c = false.
Proof.
  induction s as [|d s IH]; simpl; [discriminate|].
  destruct (isWhiteSpace d) eqn:E; [exact IH|].
  intros H. injection H as <- _. exact E.
Qed.

Lemma trimStart_suffix s : exists pre, s = pre ++ trimStart s.
Proof.
  induction s as [|c s [pre IH]]; simpl.
  - exists []. reflexivity.
  - destruct (isWhiteSpace c).
    + exists (c :: pre). simpl. f_equal. exact IH.
    + exists []. reflexivity.
Qed.

Lemma trimEnd_prefix s : exists suf, s = trimEnd s ++ suf.
Proof.
  unfold trimEnd. destruct (trimStart_suffix (rev s)) as [pre H].
  exists (rev pre). apply (f_equal (@rev N)) in H.
  rewrite rev_involutive, rev_app_distr in H. exact H.
Qed.

Lemma trimEnd_last_nonws s r d :
  trimEnd s = r ++ [d] -> isWhiteSpace d = false.
Proof.
  unfold trimEnd. intros H. apply (f_equal (@rev N)) in H.
  rewrite rev_involutive, rev_app_distr in H. simpl in H.
  apply trimStart_head_nonws in H. exact H.
Qed.

Lemma trim_head_nonws s c r : trim s = c :: r -> isWhiteSpace c = false.
Proof.
  unfold trim. intros H.
  destruct (trimEnd_prefix (trimStart s)) as [suf Hs].
  rewrite H in Hs. simpl in Hs.
  apply trimStart_head_nonws in Hs. exact Hs.
Qed.

Lemma trim_last_nonws s r d : trim s = r ++ [d] -> isWhiteSpace d = false.
Proof. unfold trim. apply trimEnd_last_nonws. Qed.

(** A non-empty result of [trim] begins and ends outside whitespace, so
    trimming it again changes nothing. *)
Lemma trim_idempotent s : trim (trim s) = trim s.
Proof.
  destruct (trim s) as [|c r] eqn:E; [reflexivity|].
  assert (Hne : c :: r <> []) by discriminate.
  destruct (exists_last Hne) as (r' & d & Hd).
  apply trim_fixed with d r'; [| |exact Hd].
  - apply trim_head_nonws with s r, E.
  - apply trim_last_nonws with s r'. rewrite E. exact Hd.
Qed.

Lemma trim_nil_inv s : trim s <> [] -> s <> [].
Proof. intros H ->. apply H. reflexivity. Qed.

End TrimShape.

(* ================================================================== *)
(** * The pipe stripping of the story flow *)
(* ================================================================== *)

Section StoryFlowFacts.

Import StoryFlow.

(** Whatever came in, the result has no whitespace around it. *)
Lemma stripPipes_trimmed raw : trim (stripPipes raw) = stripPipes raw.
Proof.
  unfold stripPipes.
  destruct (startsWith (trim raw) [PIPE]);
    match goal with
    | |- context [endsWith ?x [PIPE]] => destruct (endsWith x [PIPE])
    end; apply trim_idempotent.
Qed.

(** A result without a pipe at either end is a fixed point. *)
Lemma stripPipes_fixed raw :
  startsWith (stripPipes raw) [PIPE] = false ->
  endsWith (stripPipes raw) [PIPE] = false ->
  stripPipes (stripPipes raw) = stripPipes raw.
Proof.
  intros Hs He. unfold stripPipes at 1.
  rewrite stripPipes_trimmed, Hs, He. reflexivity.
Qed.

(** C4 fails on the code: only one pipe is removed at each end.  A story
    that begins with two pipes comes out with one, and a second pass
    changes it again; likewise at the end, and for pipes separated by a
    space. *)
Theorem second_pipe_survives :
  let raw := lit " || 04 Quartos | 02 Suítes " in
  stripPipes raw = lit "| 04 Quartos | 02 Suítes"
  /\ startsWith (stripPipes raw) [PIPE] = true
  /\ stripPipes (stripPipes raw) = lit "04 Quartos | 02 Suítes"
  /\ stripPipes (stripPipes raw) <> stripPipes raw
  /\ stripPipes (lit "04 Quartos ||") = lit "04 Quartos |"
  /\ stripPipes (lit "| | 04 Quartos") = lit "| 04 Quartos".
Proof.
  vm_compute. repeat split; try reflexivity. intros H; discriminate H.
Qed.

End StoryFlowFacts.

(* ================================================================== *)
(** * The semicolon repair of the feature flow *)
(* ================================================================== *)

Section RepairAppendOnly.

Import FeatureFlow.

Lemma ensureSemicolon_cases s :
  (s = [] \/ endsWith s [SEMICOLON] = true) /\ ensureSemicolon s = s
  \/ (s <> [] /\ endsWith s [SEMICOLON] = false)
     /\ ensureSemicolon s = s ++ [SEMICOLON].
Proof.
  unfold ensureSemicolon. destruct s as [|c s]; [left; auto|].
  destruct (endsWith (c :: s) [SEMICOLON]) eqn:E; simpl.
  - left. auto.
  - right. split; [split; [discriminate|reflexivity]|reflexivity].
Qed.

(** C9.  The repair returns its input or its input with one semicolon
    appended: the input is a prefix of the result, at most one code unit
    follows it, and that code unit is the semicolon.  (This holds for every
    string; the empty one is returned as it is.) *)
Theorem repair_is_append_only (s : jsstring) :
  (ensureSemicolon s = s \/ ensureSemicolon s = s ++ [SEMICOLON])
  /\ firstn (List.length s) (ensureSemicolon s) = s
  /\ (exists tail, ensureSemicolon s = s ++ tail
                   /\ (tail = [] \/ tail = [SEMICOLON]))
  /\ formatPropertyFeaturesFlow (Return (Fields (VString s)))
     = Return (ensureSemicolon s).
Proof.
  assert (Hflow : formatPropertyFeaturesFlow (Return (Fields (VString s)))
                  = Return (ensureSemicolon s)) by reflexivity.
  destruct (ensureSemicolon_cases s) as [[_ E]|[_ E]]; rewrite E in *.
  - split; [left; reflexivity|]. split; [apply firstn_all|].
    split; [|exact Hflow]. exists []. rewrite app_nil_r. auto.
  - split; [right; reflexivity|]. split.
    + rewrite firstn_app, firstn_all, Nat.sub_diag. simpl.
      apply app_nil_r.
    + split; [|exact Hflow]. exists [SEMICOLON]. auto.
Qed.

End RepairAppendOnly.

Section LinesFacts.

Import FeatureFlowLines.

Lemma linesOf_cons c s :
  linesOf (c :: s)
  = if char_eqb NEWLINE c then [] :: linesOf s else consHead c (linesOf s).
Proof.
  unfold linesOf. rewrite split_cons by discriminate. cbn [dropPrefix].
  destruct (char_eqb NEWLINE c); reflexivity.
Qed.

Lemma linesOf_nonempty s : linesOf s <> [].
Proof.
  destruct (split_head_prefix [NEWLINE] ltac:(discriminate) s)
    as (h & tl & rest & E & _).
  unfold linesOf. rewrite E. discriminate.
Qed.

Lemma setLast_cons x y ls v :
  setLast (x :: y :: ls) v = x :: setLast (y :: ls) v.
Proof. reflexivity. Qed.

Lemma last_setLast ls v : last (setLast ls v) [] = v.
Proof. unfold setLast. apply last_last. Qed.

(** Appending a code unit other than the newline extends the last line. *)
Lemma linesOf_snoc s c :
  char_eqb NEWLINE c = false ->
  linesOf (s ++ [c]) = setLast (linesOf s) (last (linesOf s) [] ++ [c]).
Proof.
  intros Hc. induction s as [|d s IH].
  - simpl. rewrite linesOf_cons, Hc. reflexivity.
  - simpl app. rewrite !linesOf_cons, IH.
    pose proof (linesOf_nonempty s) as Hne.
    destruct (linesOf s) as [|h tl]; [contradiction|].
    destruct (char_eqb NEWLINE d).
    + rewrite setLast_cons. reflexivity.
    + destruct tl as [|h2 tl]; [reflexivity|].
      cbn [consHead]. rewrite !setLast_cons. reflexivity.
Qed.

Lemma join_cons x y r sepr :
  join (x :: y :: r) sepr = x ++ sepr ++ join (y :: r) sepr.
Proof. reflexivity. Qed.

Lemma join_linesOf s : join (linesOf s) [NEWLINE] = s.
Proof.
  induction s as [|d s IH]; [reflexivity|].
  rewrite linesOf_cons. pose proof (linesOf_nonempty s) as Hne.
  destruct (linesOf s) as [|h tl]; [contradiction|].
  destruct (char_eqb NEWLINE d) eqn:E.
  - apply char_eqb_eq in E. subst d. rewrite join_cons, IH. reflexivity.
  - cbn [consHead]. destruct tl as [|h2 tl].
    + simpl in *. rewrite IH. reflexivity.
    + rewrite join_cons in *. rewrite <- IH. reflexivity.
Qed.

Lemma last_line_suffix s : exists pre, s = pre ++ last (linesOf s) [].
Proof.
  destruct (join_last (linesOf s) [NEWLINE] (linesOf_nonempty s)) as [Y HY].
  exists Y. rewrite <- HY. symmetry. apply join_linesOf.
Qed.

Lemma lastNonEmpty_snoc xs y : y <> [] -> lastNonEmpty (xs ++ [y]) = Some y.
Proof.
  intros Hy. induction xs as [|x xs IH]; simpl.
  - destruct y; [contradiction|reflexivity].
  - rewrite IH. reflexivity.
Qed.

Lemma lastNonEmptyLine_snoc s c :
  char_eqb NEWLINE c = false ->
  lastNonEmptyLine (s ++ [c]) = Some (last (linesOf s) [] ++ [c]).
Proof.
  intros Hc. unfold lastNonEmptyLine. rewrite linesOf_snoc by exact Hc.
  apply lastNonEmpty_snoc. destruct (last (linesOf s) []); discriminate.
Qed.

Lemma endsWith_two x c d : endsWith (x ++ [c]) [d; c] = endsWith x [d].
Proof.
  unfold endsWith, startsWith. rewrite rev_app_distr. simpl.
  rewrite char_eqb_refl. reflexivity.
Qed.

(** The heart of the repair: when the last non-empty line of [s] does not
    end with a semicolon, neither does [s], and with one semicolon appended
    its last non-empty line ends with exactly one. *)
Lemma appended_semicolon_line s l :
  lastNonEmptyLine s = Some l -> endsWith l [SEMICOLON] = false ->
  s <> [] /\ endsWith s [SEMICOLON] = false
  /\ exists l', lastNonEmptyLine (s ++ [SEMICOLON]) = Some l'
                /\ endsWithOneSemicolon l' = true.
Proof.
  intros Hl Hsemi.
  assert (Hne : s <> []) by (intros ->; discriminate Hl).
  assert (Hs : endsWith s [SEMICOLON] = false).
  { destruct (endsWith s [SEMICOLON]) eqn:E; [|reflexivity].
    apply endsWith_spec in E as [r ->].
    rewrite lastNonEmptyLine_snoc in Hl by reflexivity.
    injection Hl as <-. rewrite endsWith_char_app in Hsemi.
    discriminate Hsemi. }
  split; [exact Hne|]. split; [exact Hs|].
  eexists. split; [apply lastNonEmptyLine_snoc; reflexivity|].
  unfold endsWithOneSemicolon.
  rewrite endsWith_char_app, endsWith_two. simpl.
  destruct (last_line_suffix s) as [pre Hpre].
  destruct (last (linesOf s) []) as [|c x] eqn:E; [reflexivity|].
  rewrite Hpre, endsWith_app_right in Hs by discriminate.
  rewrite Hs. reflexivity.
Qed.

(** What the line-based revision computes on a text that, trimmed, is not
    empty and does not end with a semicolon. *)
Lemma ensureSemicolon_lines_appends s :
  trim s <> [] -> endsWith (trim s) [SEMICOLON] = false ->
  ensureSemicolon s = trim s ++ [SEMICOLON].
Proof.
  intros Hne Hsemi. unfold ensureSemicolon.
  assert (Hs : truthy s = true) by (apply truthy_true, trim_nil_inv, Hne).
  rewrite Hs, Hsemi. simpl.
  destruct (exists_last Hne) as (r & d & Hd).
  assert (Hws : isWhiteSpace d = false) by (apply trim_last_nonws with s r, Hd).
  assert (Hnl : char_eqb NEWLINE d = false).
  { destruct (char_eqb NEWLINE d) eqn:E; [|reflexivity].
    apply char_eqb_eq in E. subst d. discriminate Hws. }
  assert (Hlast : last (split (trim s) [NEWLINE]) [] = last (linesOf r) [] ++ [d]).
  { rewrite Hd. fold (linesOf (r ++ [d])).
    rewrite linesOf_snoc by exact Hnl. apply last_setLast. }
  assert (Hd' : endsWith (last (linesOf r) [] ++ [d]) [SEMICOLON] = false).
  { rewrite endsWith_char_app. rewrite Hd, endsWith_char_app in Hsemi.
    exact Hsemi. }
  rewrite Hlast, Hd'.
  replace (truthy (last (linesOf r) [] ++ [d])) with true
    by (destruct (last (linesOf r) []); reflexivity).
  rewrite <- Hlast. fold (linesOf (trim s)).
  rewrite <- linesOf_snoc by reflexivity. rewrite join_linesOf.
  destruct (trim s) as [|c t] eqn:E; [contradiction|].
  apply trim_fixed with SEMICOLON (c :: t); [|reflexivity|reflexivity].
  apply trim_head_nonws with s t, E.
Qed.

End LinesFacts.

Section SemicolonRepair.

(** C3, as amended.  When the last non-empty line of the block does not end
    with a semicolon, the repair gives a block whose last non-empty line
    ends with exactly one semicolon (the line-based revision does so for
    the trimmed block); a string that itself ends with a semicolon, with
    nothing after it, is returned unchanged (by the line-based revision
    when it is trimmed). *)
Theorem semicolon_repair (s : jsstring) :
  (forall l, lastNonEmptyLine s = Some l ->
             endsWith l [SEMICOLON] = false ->
             exists l',
               lastNonEmptyLine (FeatureFlow.ensureSemicolon s) = Some l'
               /\ endsWithOneSemicolon l' = true)
  /\ (endsWith s [SEMICOLON] = true -> FeatureFlow.ensureSemicolon s = s)
  /\ (forall l, lastNonEmptyLine (trim s) = Some l ->
                endsWith l [SEMICOLON] = false ->
                exists l',
                  lastNonEmptyLine (FeatureFlowLines.ensureSemicolon s)
                  = Some l'
                  /\ endsWithOneSemicolon l' = true)
  /\ (trim s = s -> endsWith s [SEMICOLON] = true ->
      FeatureFlowLines.ensureSemicolon s = s).
Proof.
  split; [|split; [|split]].
  - intros l Hl Hsemi.
    destruct (appended_semicolon_line s l Hl Hsemi) as (Hne & Hs & Hex).
    destruct (ensureSemicolon_cases s) as [[[H|H] _]|[_ E]];
      [contradiction | congruence | rewrite E; exact Hex].
  - intros H. destruct (ensureSemicolon_cases s) as [[_ E]|[[_ H'] _]];
      [exact E | congruence].
  - intros l Hl Hsemi.
    destruct (appended_semicolon_line (trim s) l Hl Hsemi) as (Hne & Hs & Hex).
    rewrite ensureSemicolon_lines_appends by assumption. exact Hex.
  - intros Ht H. unfold FeatureFlowLines.ensureSemicolon.
    rewrite Ht, H, andb_false_r. exact Ht.
Qed.

Lemma semicolon_repair_witness :
  let s := lit "✅ 3 quartos;" ++ [NEWLINE] ++ lit "✅ 2 vagas" in
  lastNonEmptyLine s = Some (lit "✅ 2 vagas")
  /\ endsWith (lit "✅ 2 vagas") [SEMICOLON] = false
  /\ exists l', lastNonEmptyLine (FeatureFlow.ensureSemicolon s) = Some l'
                /\ endsWithOneSemicolon l' = true.
Proof.
  intros s.
  assert (Hl : lastNonEmptyLine s = Some (lit "✅ 2 vagas"))
    by (vm_compute; reflexivity).
  assert (Hsemi : endsWith (lit "✅ 2 vagas") [SEMICOLON] = false)
    by (vm_compute; reflexivity).
  split; [exact Hl|]. split; [exact Hsemi|].
  exact (proj1 (semicolon_repair s) _ Hl Hsemi).
Defined.

(** C3 as stated fails: a block that is correctly terminated and followed
    by a newline, as in the example of the prompt, is not returned
    unchanged: one revision appends a semicolon after the newline, the
    other removes the newline. *)
Lemma terminated_block_is_changed :
  let s := lit "✅ 3 quartos;" ++ [NEWLINE]
             ++ lit "✅ 2 vagas;" ++ [NEWLINE] in
  lastNonEmptyLine s = Some (lit "✅ 2 vagas;")
  /\ endsWithOneSemicolon (lit "✅ 2 vagas;") = true
  /\ FeatureFlow.ensureSemicolon s = s ++ [SEMICOLON]
  /\ FeatureFlow.ensureSemicolon s <> s
  /\ FeatureFlowLines.ensureSemicolon s
     = lit "✅ 3 quartos;" ++ [NEWLINE] ++ lit "✅ 2 vagas;"
  /\ FeatureFlowLines.ensureSemicolon s <> s.
Proof.
  vm_compute. repeat split; try reflexivity; intros H; discriminate H.
Qed.

End SemicolonRepair.

(* ================================================================== *)
(** * More on the caption splitter: what is copied *)
(* ================================================================== *)

Lemma list_sum_cons a l : list_sum (a :: l) = a + list_sum l.
Proof. reflexivity. Qed.

Section JoinAfterSplit.

Variable sep : jsstring.
Hypothesis sep_nonempty : sep <> [].

Lemma split_nonempty s : split s sep <> [].
Proof.
  destruct (split_head_prefix sep sep_nonempty s) as (h & tl & rest & E & _).
  rewrite E. discriminate.
Qed.

Lemma join_consHead c parts sepr :
  parts <> [] -> join (consHead c parts) sepr = c :: join parts sepr.
Proof.
  intros H. destruct parts as [|h [|h2 tl]]; [contradiction| |]; reflexivity.
Qed.

(** Joining the tokens of a string with the separator gives the string. *)
Lemma join_split s : join (split s sep) sep = s.
Proof.
  apply split_induction with (sep := sep) (s := s); [exact sep_nonempty| | |].
  - reflexivity.
  - intros c s0 rest E IH. apply dropPrefix_spec in E.
    pose proof (split_nonempty rest) as Hne.
    destruct (split rest sep) as [|h tl] eqn:E'; [contradiction|].
    rewrite join_cons, IH, E. reflexivity.
  - intros c s0 _ IH. rewrite join_consHead by apply split_nonempty.
    rewrite IH. reflexivity.
Qed.

Lemma join_weight parts :
  parts <> [] ->
  List.length (join parts sep) + List.length sep
  = list_sum (map (fun t => List.length t + List.length sep) parts).
Proof.
  induction parts as [|t parts IH]; [contradiction|]. intros _.
  destruct parts as [|t2 parts].
  - simpl. lia.
  - rewrite join_cons. specialize (IH ltac:(discriminate)).
    remember (t2 :: parts) as rest. cbn [map]. rewrite list_sum_cons, <- IH.
    rewrite !length_app. lia.
Qed.

Lemma split_weight s :
  list_sum (map (fun t => List.length t + List.length sep) (split s sep))
  = List.length s + List.length sep.
Proof.
  rewrite <- join_weight by apply split_nonempty.
  rewrite join_split. reflexivity.
Qed.

End JoinAfterSplit.

Section CopiedText.

Import Page.

(** The length of a raw line, counting a separator for a line in use. *)
Lemma appendPart_weight x t :
  List.length (appendPart x t) + (if truthy (appendPart x t) then 3 else 0)
  <= List.length x + (if truthy x then 3 else 0) + (List.length t + 3).
Proof.
  unfold appendPart. destruct x as [|c x]; simpl.
  - destruct t; simpl; lia.
  - rewrite !length_app. simpl. lia.
Qed.

Lemma placePart_eq f l p :
  placePart (f, l) p
  = if fitsFirst f p then (appendPart f p, l) else (f, appendPart l p).
Proof. reflexivity. Qed.

Lemma placeParts_weight parts : forall f l,
  let r := fold_left placePart parts (f, l) in
  List.length (fst r) + (if truthy (fst r) then 3 else 0)
  + (List.length (snd r) + (if truthy (snd r) then 3 else 0))
  <= List.length f + (if truthy f then 3 else 0)
     + (List.length l + (if truthy l then 3 else 0))
     + list_sum (map (fun t => List.length t + 3) parts).
Proof.
  induction parts as [|p parts IH]; intros f l; cbn [fold_left map];
    [|rewrite list_sum_cons].
  - simpl. lia.
  - rewrite placePart_eq. cbv zeta. destruct (fitsFirst f p).
    + specialize (IH (appendPart f p) l). cbv zeta in IH.
      pose proof (appendPart_weight f p). lia.
    + specialize (IH f (appendPart l p)). cbv zeta in IH.
      pose proof (appendPart_weight l p). lia.
Qed.

Lemma finishLines_second_length f l :
  List.length (snd (finishLines (f, l))) <= List.length l.
Proof. simpl. apply trim_length. Qed.

Lemma trim_truthy s : truthy (trim s) = true -> truthy s = true.
Proof. destruct s; [discriminate|reflexivity]. Qed.

(** When every token passes the test of the first line, the second line
    stays as it is. *)
Lemma placeParts_all_fit parts : forall f l,
  List.length f + list_sum (map (fun t => List.length t + 3) parts) <= 47 ->
  fold_left placePart parts (f, l) = (glueFrom f parts, l).
Proof.
  induction parts as [|p parts IH]; intros f l H; [reflexivity|].
  cbn [map] in H. rewrite list_sum_cons in H.
  cbn [fold_left]. rewrite placePart_eq.
  assert (E : fitsFirst f p = true) by (apply fitsFirst_length; lia).
  rewrite E. apply IH.
  pose proof (appendPart_length f p) as Hl.
  rewrite !length_app in Hl. simpl in Hl. lia.
Qed.

(** When no token passes the test of the empty first line, the first line
    stays empty. *)
Lemma placeParts_none_fits parts : forall l,
  Forall (fun t => 44 < List.length t) parts ->
  fold_left placePart parts ([], l) = ([], glueFrom l parts).
Proof.
  induction parts as [|p parts IH]; intros l H; [reflexivity|].
  inversion H as [|? ? Hp Hrest]; subst.
  cbn [fold_left]. rewrite placePart_eq.
  assert (E : fitsFirst [] p = false).
  { destruct (fitsFirst [] p) eqn:E; [|reflexivity].
    apply fitsFirst_length in E. simpl in E. lia. }
  rewrite E. apply IH, Hrest.
Qed.

(** The raw line of the tokens of a story that does not begin with the
    separator is their join. *)
Lemma glueFrom_head_nonempty parts :
  hd [] parts <> [] -> glueFrom [] parts = join parts SEPARATOR.
Proof.
  destruct parts as [|t parts]; [reflexivity|]. simpl. intros Ht.
  unfold glueFrom. cbn [fold_left].
  change (appendPart [] t) with ([] ++ [] ++ t). simpl.
  apply glueFrom_nonempty, Ht.
Qed.

Lemma split_head_of_trimmed c s :
  isWhiteSpace c = false -> hd [] (split (c :: s) SEPARATOR) <> [].
Proof.
  intros Hc. rewrite (split_cons SEPARATOR SEPARATOR_nonempty).
  assert (E : dropPrefix SEPARATOR (c :: s) = None).
  { destruct (dropPrefix SEPARATOR (c :: s)) eqn:E; [|reflexivity].
    apply dropPrefix_spec in E. injection E as -> _. discriminate Hc. }
  rewrite E.
  destruct (split s SEPARATOR) as [|h tl]; discriminate.
Qed.

Lemma glueFrom_split_trimmed s :
  s <> [] -> trim s = s -> glueFrom [] (split s SEPARATOR) = s.
Proof.
  intros Hne Htrim. destruct s as [|c s]; [contradiction|].
  rewrite glueFrom_head_nonempty.
  - apply join_split, SEPARATOR_nonempty.
  - apply split_head_of_trimmed, trim_fixed_head with s, Htrim.
Qed.

End CopiedText.

Section CopiedTextProperties.

Import Page.

Lemma split_weight_separator s :
  list_sum (map (fun t => List.length t + 3) (split s SEPARATOR))
  = List.length s + 3.
Proof. exact (split_weight SEPARATOR SEPARATOR_nonempty s). Qed.

(** X1.  A story of at most 44 code units that is trimmed and does not end
    with a pipe is copied as it is, on one line. *)
Theorem short_story_is_copied_unchanged (s : jsstring) :
  s <> [] -> List.length s <= 44 -> trim s = s ->
  endsWith s [PIPE] = false ->
  captionLines s = (s, []) /\ handleCopyToClipboard s = Some s.
Proof.
  intros Hne Hlen Htrim Hpipe.
  assert (E : captionLines s = (s, [])).
  { unfold captionLines, splitLines, placeParts.
    rewrite placeParts_all_fit
      by (rewrite split_weight_separator; simpl; lia).
    rewrite glueFrom_split_trimmed by assumption.
    unfold finishLines. rewrite Htrim, Hpipe. reflexivity. }
  split; [exact E|].
  unfold handleCopyToClipboard. rewrite E.
  destruct s; [contradiction|reflexivity].
Qed.

Lemma short_story_is_copied_unchanged_witness :
  handleCopyToClipboard (lit "04 Quartos | 02 Suítes | Piscina")
  = Some (lit "04 Quartos | 02 Suítes | Piscina").
Proof.
  apply (short_story_is_copied_unchanged
           (lit "04 Quartos | 02 Suítes | Piscina")).
  - vm_compute. discriminate.
  - vm_compute. lia.
  - vm_compute. reflexivity.
  - vm_compute. reflexivity.
Defined.

(** X2.  When every token of a trimmed story is longer than 44 code units,
    nothing is placed on the first line: the copied text is a newline
    followed by the whole story. *)
Theorem story_of_long_tokens_gets_empty_first_line (s : jsstring) :
  s <> [] -> trim s = s ->
  Forall (fun t => 44 < List.length t) (split s SEPARATOR) ->
  captionLines s = ([], s)
  /\ handleCopyToClipboard s = Some (NEWLINE :: s).
Proof.
  intros Hne Htrim Hlong.
  assert (E : captionLines s = ([], s)).
  { unfold captionLines, splitLines, placeParts.
    rewrite placeParts_none_fits by exact Hlong.
    rewrite glueFrom_split_trimmed by assumption.
    unfold finishLines. rewrite Htrim. reflexivity. }
  split; [exact E|].
  unfold handleCopyToClipboard. rewrite E.
  destruct s; [contradiction|reflexivity].
Qed.

Lemma story_of_long_tokens_gets_empty_first_line_witness :
  let s := repeat 97%N 45 ++ SEPARATOR ++ repeat 98%N 50 in
  handleCopyToClipboard s = Some (NEWLINE :: s).
Proof.
  intros s.
  apply (story_of_long_tokens_gets_empty_first_line s).
  - vm_compute. discriminate.
  - vm_compute. reflexivity.
  - vm_compute. repeat (apply Forall_cons; [lia|]). apply Forall_nil.
Defined.

(** X3.  The copied text is never longer than the story, except by the
    one newline that precedes the second line when the first line is
    empty. *)
Theorem copied_text_is_not_longer (s : jsstring) :
  List.length (textOf (captionLines s))
  <= List.length s + (if truthy (fst (captionLines s)) then 0 else 1).
Proof.
  unfold captionLines, splitLines, placeParts.
  pose proof (placeParts_weight (split s SEPARATOR) [] []) as W.
  cbv zeta in W. rewrite split_weight_separator in W. simpl in W.
  destruct (fold_left placePart (split s SEPARATOR) ([], [])) as [f l].
  pose proof (finishLines_first_length f l) as Hf.
  pose proof (finishLines_second_length f l) as Hl.
  assert (Hft : truthy (fst (finishLines (f, l))) = true -> truthy f = true).
  { simpl. destruct (endsWith (trim f) [PIPE]); intros H.
    - destruct f; [discriminate H|reflexivity].
    - apply trim_truthy, H. }
  assert (Hlt : truthy (snd (finishLines (f, l))) = true -> truthy l = true).
  { simpl. apply trim_truthy. }
  destruct (finishLines (f, l)) as [f' l']. simpl fst in *. simpl snd in *.
  unfold textOf.
  destruct (truthy l') eqn:El.
  - rewrite (Hlt eq_refl) in W. rewrite !length_app. simpl.
    destruct (truthy f') eqn:Ef.
    + rewrite (Hft eq_refl) in W. lia.
    + destruct (truthy f); lia.
  - destruct (truthy f') eqn:Ef.
    + rewrite (Hft eq_refl) in W. destruct (truthy l); lia.
    + destruct f'; [simpl; lia | discriminate Ef].
Qed.

(** X4.  Whatever the tokens, both output lines come out without
    whitespace at either end. *)
Theorem output_lines_are_trimmed (parts : list jsstring) :
  trim (fst (splitLines parts)) = fst (splitLines parts)
  /\ trim (snd (splitLines parts)) = snd (splitLines parts).
Proof.
  rewrite splitLines_first, splitLines_second. cbv zeta. split.
  - destruct (endsWith (trim (fst (placeParts parts))) [PIPE]);
      apply trim_idempotent.
  - apply trim_idempotent.
Qed.

End CopiedTextProperties.

(* ================================================================== *)
(** * More on the feature flow and the description form *)
(* ================================================================== *)

Section RepairAlgebra.

Lemma ensureSemicolon_ends s :
  s <> [] -> endsWith (FeatureFlow.ensureSemicolon s) [SEMICOLON] = true.
Proof.
  intros Hne.
  destruct (ensureSemicolon_cases s) as [[[H|H] E]|[_ E]]; rewrite E.
  - contradiction.
  - exact H.
  - rewrite endsWith_char_app. apply char_eqb_refl.
Qed.

Lemma ensureSemicolon_idem s :
  FeatureFlow.ensureSemicolon (FeatureFlow.ensureSemicolon s)
  = FeatureFlow.ensureSemicolon s.
Proof.
  destruct s as [|c s]; [reflexivity|].
  pose proof (ensureSemicolon_ends (c :: s) ltac:(discriminate)) as H.
  destruct (ensureSemicolon_cases (FeatureFlow.ensureSemicolon (c :: s)))
    as [[_ E]|[[_ H'] _]]; [exact E | congruence].
Qed.

Lemma ensureSemicolon_nil_iff s :
  FeatureFlow.ensureSemicolon s = [] <-> s = [].
Proof.
  split; [|intros ->; reflexivity].
  destruct (ensureSemicolon_cases s) as [[_ E]|[_ E]]; rewrite E.
  - auto.
  - intros H. destruct s; discriminate H.
Qed.

(** What the repair does to a trimmed text stays trimmed. *)
Lemma trim_ensureSemicolon s :
  trim (FeatureFlow.ensureSemicolon (trim s))
  = FeatureFlow.ensureSemicolon (trim s).
Proof.
  destruct (ensureSemicolon_cases (trim s)) as [[_ E]|[[Hne _] E]]; rewrite E.
  - apply trim_idempotent.
  - destruct (trim s) as [|c t] eqn:Et; [contradiction|].
    apply trim_fixed with SEMICOLON (c :: t); [|reflexivity|reflexivity].
    apply trim_head_nonws with s t, Et.
Qed.

Lemma ensureSemicolon_lines_spec s :
  FeatureFlowLines.ensureSemicolon s = FeatureFlow.ensureSemicolon (trim s).
Proof.
  destruct (ensureSemicolon_cases (trim s)) as [[[H|H] E]|[[Hne H] E]];
    rewrite E.
  - unfold FeatureFlowLines.ensureSemicolon. rewrite H. simpl.
    destruct (truthy s); simpl; exact H.
  - unfold FeatureFlowLines.ensureSemicolon. rewrite H, andb_false_r.
    reflexivity.
  - apply ensureSemicolon_lines_appends; assumption.
Qed.

(** X5.  The repair of the flow is idempotent; a non-empty text comes out
    ending with a semicolon, and only the empty text comes out empty. *)
Theorem repair_is_idempotent (s : jsstring) :
  FeatureFlow.ensureSemicolon (FeatureFlow.ensureSemicolon s)
  = FeatureFlow.ensureSemicolon s
  /\ (s <> [] -> endsWith (FeatureFlow.ensureSemicolon s) [SEMICOLON] = true)
  /\ (FeatureFlow.ensureSemicolon s = [] <-> s = []).
Proof.
  split; [apply ensureSemicolon_idem|].
  split; [apply ensureSemicolon_ends | apply ensureSemicolon_nil_iff].
Qed.

Lemma repair_is_idempotent_witness :
  lit "✅ 2 vagas" <> []
  /\ endsWith (FeatureFlow.ensureSemicolon (lit "✅ 2 vagas")) [SEMICOLON]
     = true.
Proof.
  assert (H : lit "✅ 2 vagas" <> []) by (vm_compute; discriminate).
  split; [exact H|].
  exact (proj1 (proj2 (repair_is_idempotent (lit "✅ 2 vagas"))) H).
Defined.

(** X6.  The line-based revision of the flow computes the repair of the
    other revision on the trimmed text; its result is trimmed, and repairing
    it again changes nothing. *)
Theorem line_based_repair_is_repair_of_trimmed (s : jsstring) :
  FeatureFlowLines.ensureSemicolon s = FeatureFlow.ensureSemicolon (trim s)
  /\ trim (FeatureFlowLines.ensureSemicolon s)
     = FeatureFlowLines.ensureSemicolon s
  /\ FeatureFlowLines.ensureSemicolon (FeatureFlowLines.ensureSemicolon s)
     = FeatureFlowLines.ensureSemicolon s.
Proof.
  split; [apply ensureSemicolon_lines_spec|]. split.
  - rewrite ensureSemicolon_lines_spec. apply trim_ensureSemicolon.
  - rewrite (ensureSemicolon_lines_spec (FeatureFlowLines.ensureSemicolon s)).
    rewrite ensureSemicolon_lines_spec, trim_ensureSemicolon.
    apply ensureSemicolon_idem.
Qed.

End RepairAlgebra.

Section DescriptionForm.

Import Page.

Lemma join_app xs ys sepr :
  xs <> [] -> ys <> [] ->
  join (xs ++ ys) sepr = join xs sepr ++ sepr ++ join ys sepr.
Proof.
  intros Hx Hy. induction xs as [|x xs IH]; [contradiction|].
  destruct xs as [|x2 xs].
  - destruct ys; [contradiction|reflexivity].
  - change ((x :: x2 :: xs) ++ ys) with (x :: (x2 :: xs) ++ ys).
    change ((x2 :: xs) ++ ys) with (x2 :: xs ++ ys) at 1.
    rewrite join_cons. change (x2 :: xs ++ ys) with ((x2 :: xs) ++ ys).
    rewrite IH by discriminate. rewrite join_cons, <- !app_assoc.
    reflexivity.
Qed.

Lemma join_snoc_nonempty parts x sepr :
  x <> [] -> join (parts ++ [x]) sepr <> [].
Proof.
  intros Hx. destruct (join_last (parts ++ [x]) sepr) as [Y HY].
  - destruct parts; discriminate.
  - rewrite HY, last_last. intros H. apply app_eq_nil in H as [_ H].
    contradiction.
Qed.

Lemma assembleDescription_nonempty data ff : assembleDescription data ff <> [].
Proof.
  unfold assembleDescription, descriptionParts. rewrite !app_assoc.
  apply join_snoc_nonempty. discriminate.
Qed.

End DescriptionForm.

Section SubmissionOutcomes.

Import Page.

Lemma onSubmit_success s data st :
  s <> [] ->
  onSubmit (Return (Fields (VString s))) data st
  = {| isLoading := false;
       generatedDescription := assembleDescription data s;
       toasts := {| variant := Default; title := SUCCESS_TITLE;
                    description := SUCCESS_TEXT |} :: toasts st |}.
Proof.
  intros H. destruct s as [|c s]; [contradiction|]. reflexivity.
Qed.

Lemma onSubmit_failure r data st e :
  tryGenerate r data = Throw e ->
  onSubmit r data st
  = {| isLoading := false;
       generatedDescription := [];
       toasts := {| variant := Destructive; title := ERROR_TITLE;
                    description := errorText e |} :: toasts st |}.
Proof.
  intros H. unfold onSubmit, onSubmitUpdates. rewrite H. reflexivity.
Qed.

(** X7.  What a submission of the description form ends in, for every
    outcome of the prompt call behind the feature flow: loading is off; a
    description is displayed exactly when the prompt returned a non-empty
    string, and it is then assembled from the repaired block, with the
    success toast; otherwise the description is empty and one error toast
    carries the page's message for an empty string, the flow's message for
    a missing or non-string field, and the message of the rejection
    itself when the call was rejected. *)
Theorem description_form_outcomes (prompt : outcome response)
    (data : PropertyFormData) (st : formState) :
  let st' := onSubmit
               (adapterResult (FeatureFlow.formatPropertyFeaturesFlow prompt))
               data st in
  let failure message :=
    generatedDescription st' = []
    /\ toasts st' = {| variant := Destructive; title := ERROR_TITLE;
                       description := message |} :: toasts st in
  isLoading st' = false
  /\ (generatedDescription st' <> []
      <-> exists s, prompt = Return (Fields (VString s)) /\ s <> [])
  /\ match prompt with
     | Return (Fields (VString (c :: r))) =>
         generatedDescription st'
         = assembleDescription data (FeatureFlow.ensureSemicolon (c :: r))
         /\ toasts st' = {| variant := Default; title := SUCCESS_TITLE;
                            description := SUCCESS_TEXT |} :: toasts st
     | Return (Fields (VString [])) => failure NOT_FORMATTED
     | Return _ => failure FeatureFlow.INVALID_OUTPUT
     | Throw e => failure (errorText e)
     end.
Proof.
  intros st' failure. unfold failure.
  destruct prompt as [[|[| |[|c r]|b]]|e];
    try (subst st'; cbn [FeatureFlow.formatPropertyFeaturesFlow adapterResult];
         first
           [ rewrite onSubmit_failure
               with (e := Error FeatureFlow.INVALID_OUTPUT) by reflexivity
           | rewrite onSubmit_failure
               with (e := Error NOT_FORMATTED) by reflexivity
           | rewrite onSubmit_failure with (e := e) by reflexivity ];
         cbn [isLoading generatedDescription toasts errorText];
         split; [reflexivity|]; split; [|split; reflexivity];
         split; [intros H; contradiction|];
         intros (s & Hs & Hne); try discriminate Hs;
         injection Hs as <-; contradiction).
  subst st'. cbn [FeatureFlow.formatPropertyFeaturesFlow adapterResult].
  assert (Hne : FeatureFlow.ensureSemicolon (c :: r) <> []).
  { intros H. apply (proj1 (ensureSemicolon_nil_iff (c :: r))) in H.
    discriminate H. }
  rewrite onSubmit_success by exact Hne.
  cbn [isLoading generatedDescription toasts].
  split; [reflexivity|]. split; [|split; reflexivity]. split.
  - intros _. exists (c :: r). split; [reflexivity|discriminate].
  - intros _. apply assembleDescription_nonempty.
Qed.

Lemma join_three a b tail sepr :
  tail <> [] ->
  join (a :: [] :: b :: tail) sepr
  = a ++ sepr ++ sepr ++ b ++ sepr ++ join tail sepr.
Proof. intros H. destruct tail; [contradiction|reflexivity]. Qed.

Lemma join_five a b e tail sepr :
  tail <> [] ->
  join (a :: [] :: b :: [] :: e :: tail) sepr
  = a ++ sepr ++ sepr ++ b ++ sepr ++ sepr ++ e ++ sepr ++ join tail sepr.
Proof. intros H. destruct tail; [contradiction|reflexivity]. Qed.

(** The parts before and after the place of the extra text. *)
Lemma descriptionParts_split data ff :
  descriptionParts data ff
  = [toUpperCase (bairro data) ++ LOCATION_SEP
       ++ toUpperCase (cidade data) ++ STATE_SUFFIX;
     []; CODE_LABEL ++ codigo data]
    ++ match descricaoAdicional data with
       | Some extra => if truthy (trim extra) then [[]; trim extra] else []
       | None => []
       end
    ++ tl (tl (tl (descriptionParts (withExtra data None) ff))).
Proof. reflexivity. Qed.

(** X8.  The optional extra text: when it is blank (nothing left after
    trimming) the description is the one without extra text; otherwise the
    description is the one without extra text with a blank line and the
    trimmed extra text inserted right after the line of the code. *)
Theorem extra_text_is_inserted_after_code (data : PropertyFormData)
    (extra formattedFeatures : jsstring) :
  let head := toUpperCase (bairro data) ++ LOCATION_SEP
                ++ toUpperCase (cidade data) ++ STATE_SUFFIX
                ++ [NEWLINE; NEWLINE] ++ CODE_LABEL ++ codigo data in
  exists rest,
    assembleDescription (withExtra data None) formattedFeatures
    = head ++ rest
    /\ (trim extra = [] ->
        assembleDescription (withExtra data (Some extra)) formattedFeatures
        = head ++ rest)
    /\ (trim extra <> [] ->
        assembleDescription (withExtra data (Some extra)) formattedFeatures
        = head ++ [NEWLINE; NEWLINE] ++ trim extra ++ rest).
Proof.
  intros head.
  set (tailParts :=
         tl (tl (tl (descriptionParts (withExtra data None)
                       formattedFeatures)))).
  assert (Htail : tailParts <> []) by discriminate.
  exists ([NEWLINE] ++ join tailParts [NEWLINE]).
  assert (E0 : forall x, x = None \/ (exists e, x = Some e /\ trim e = []) ->
            assembleDescription (withExtra data x) formattedFeatures
            = head ++ [NEWLINE] ++ join tailParts [NEWLINE]).
  { intros x Hx. unfold assembleDescription.
    rewrite descriptionParts_split. cbn [withExtra descricaoAdicional
      bairro cidade codigo].
    replace (match x with
             | Some extra0 =>
                 if truthy (trim extra0) then [[]; trim extra0] else []
             | None => []
             end) with (@nil (list N))
      by (destruct Hx as [->|(e & -> & ->)]; reflexivity).
    fold tailParts. cbn [app]. rewrite join_three by exact Htail.
    unfold head. repeat rewrite <- app_assoc. reflexivity. }
  split; [apply E0; left; reflexivity|]. split.
  - intros Hblank. apply E0. right. exists extra. split; [reflexivity|exact Hblank].
  - intros Hne. unfold assembleDescription.
    rewrite descriptionParts_split. cbn [withExtra descricaoAdicional
      bairro cidade codigo].
    apply truthy_true in Hne. rewrite Hne. fold tailParts.
    cbn [app]. rewrite join_five by exact Htail.
    unfold head. repeat rewrite <- app_assoc. reflexivity.
Qed.

Lemma extra_text_is_inserted_after_code_witness :
  exists rest,
    assembleDescription (withExtra exampleListing None) exampleFeatures
    = lit "CENTRO - BELO HORIZONTE/MG" ++ [NEWLINE; NEWLINE]
        ++ lit "Código do imóvel: AP0123" ++ rest
    /\ assembleDescription
         (withExtra exampleListing (Some (lit "  Aceita permuta. ")))
         exampleFeatures
       = lit "CENTRO - BELO HORIZONTE/MG" ++ [NEWLINE; NEWLINE]
           ++ lit "Código do imóvel: AP0123"
           ++ [NEWLINE; NEWLINE] ++ lit "Aceita permuta." ++ rest
    /\ assembleDescription
         (withExtra exampleListing (Some (lit "   ")))
         exampleFeatures
       = lit "CENTRO - BELO HORIZONTE/MG" ++ [NEWLINE; NEWLINE]
           ++ lit "Código do imóvel: AP0123" ++ rest.
Proof.
  destruct (extra_text_is_inserted_after_code exampleListing
              (lit "  Aceita permuta. ") exampleFeatures)
    as (rest & H0 & _ & H1).
  destruct (extra_text_is_inserted_after_code exampleListing
              (lit "   ") exampleFeatures)
    as (rest' & H0' & H1' & _).
  exists rest. split; [exact H0|]. split.
  - apply H1. vm_compute. discriminate.
  - rewrite H0' in H0. apply app_inv_head in H0. subst rest'.
    apply H1'. vm_compute. reflexivity.
Defined.

End SubmissionOutcomes.

(* ================================================================== *)
(** * More on the story flow and the story form *)
(* ================================================================== *)

Section TrimWrapped.

Lemma trimStart_ws_app pre x :
  Forall (fun c => isWhiteSpace c = true) pre ->
  trimStart (pre ++ x) = trimStart x.
Proof.
  induction 1 as [|c pre Hc _ IH]; [reflexivity|].
  simpl. rewrite Hc. exact IH.
Qed.

Lemma trimEnd_ws_app x post :
  Forall (fun c => isWhiteSpace c = true) post ->
  trimEnd (x ++ post) = trimEnd x.
Proof.
  intros H. unfold trimEnd. rewrite rev_app_distr.
  rewrite trimStart_ws_app by (apply Forall_rev, H). reflexivity.
Qed.

(** Whitespace around a text that begins and ends outside whitespace is
    what [trim] removes. *)
Lemma trim_wrapped pre c x d post :
  Forall (fun a => isWhiteSpace a = true) pre ->
  Forall (fun a => isWhiteSpace a = true) post ->
  isWhiteSpace c = false -> isWhiteSpace d = false ->
  forall body, c :: x = body ++ [d] ->
  trim (pre ++ (c :: x) ++ post) = c :: x.
Proof.
  intros Hpre Hpost Hc Hd body E. unfold trim.
  rewrite trimStart_ws_app by exact Hpre.
  change ((c :: x) ++ post) with (c :: (x ++ post)).
  rewrite trimStart_head by exact Hc.
  change (c :: (x ++ post)) with ((c :: x) ++ post).
  rewrite trimEnd_ws_app by exact Hpost.
  rewrite E. apply trimEnd_last, Hd.
Qed.

Lemma trim_substring s : exists pre post, s = pre ++ trim s ++ post.
Proof.
  unfold trim. destruct (trimStart_suffix s) as [pre Hpre].
  destruct (trimEnd_prefix (trimStart s)) as [post Hpost].
  exists pre, post. rewrite <- Hpost. exact Hpre.
Qed.

Lemma substring_compose (s x y p1 q1 p2 q2 : jsstring) :
  s = p1 ++ x ++ q1 -> x = p2 ++ y ++ q2 ->
  s = (p1 ++ p2) ++ y ++ (q2 ++ q1).
Proof. intros -> ->. rewrite <- !app_assoc. reflexivity. Qed.

End TrimWrapped.

Section StoryFlowMore.

Import StoryFlow.

Lemma stripPipes_substring raw :
  exists pre post, raw = pre ++ stripPipes raw ++ post.
Proof.
  unfold stripPipes.
  destruct (trim_substring raw) as (p0 & q0 & H0).
  set (t0 := trim raw) in *.
  assert (H1 : exists p q,
             raw = p ++ (if startsWith t0 [PIPE] then trim (substring1 t0)
                         else t0) ++ q).
  { destruct (startsWith t0 [PIPE]); [|eauto].
    destruct (trim_substring (substring1 t0)) as (p & q & Hs).
    assert (Ht : t0 = match t0 with [] => [] | c :: _ => [c] end
                      ++ substring1 t0 ++ [])
      by (destruct t0; simpl; rewrite ?app_nil_r; reflexivity).
    pose proof (substring_compose _ _ _ _ _ _ _ Ht Hs) as H.
    pose proof (substring_compose _ _ _ _ _ _ _ H0 H) as H'.
    eauto. }
  destruct H1 as (p1 & q1 & H1).
  set (t1 := if startsWith t0 [PIPE] then trim (substring1 t0) else t0) in *.
  destruct (endsWith t1 [PIPE]); [|eauto].
  destruct (trim_substring (sliceDropLast t1)) as (p & q & Hs).
  assert (Ht : t1 = [] ++ sliceDropLast t1
                    ++ match rev t1 with [] => [] | c :: _ => [c] end).
  { unfold sliceDropLast. destruct t1 as [|a t1]; [reflexivity|].
    assert (Hne : a :: t1 <> []) by discriminate.
    destruct (exists_last Hne) as (r & d & E). rewrite E.
    rewrite removelast_last, rev_app_distr. reflexivity. }
  pose proof (substring_compose _ _ _ _ _ _ _ Ht Hs) as H.
  pose proof (substring_compose _ _ _ _ _ _ _ H1 H) as H'.
  eauto.
Qed.

(** X9.  A story text returned by the flow comes from a non-empty string
    output of the prompt; it is a contiguous part of that output, with no
    whitespace at either end. *)
Theorem story_flow_returns_trimmed_part (prompt : outcome (option jsvalue))
    (storyText : jsstring) :
  generateStoryTextFlow prompt = Return storyText ->
  exists raw,
    prompt = Return (Some (VString raw))
    /\ raw <> []
    /\ storyText = stripPipes raw
    /\ trim storyText = storyText
    /\ exists pre post, raw = pre ++ storyText ++ post.
Proof.
  intros H.
  destruct prompt as [[[| |raw|b]|]|e]; try discriminate H.
  - exists raw. simpl in H.
    destruct raw as [|c raw]; [discriminate H|].
    simpl negb in H. cbv iota in H. injection H as <-.
    split; [reflexivity|]. split; [discriminate|]. split; [reflexivity|].
    split; [apply stripPipes_trimmed | apply stripPipes_substring].
  - destruct b; discriminate H.
Qed.

Lemma story_flow_returns_trimmed_part_witness :
  exists raw,
    Return (Some (VString (lit " | 04 Quartos | Piscina ")))
    = Return (Some (VString raw))
    /\ raw <> []
    /\ lit "04 Quartos | Piscina" = stripPipes raw
    /\ trim (lit "04 Quartos | Piscina") = lit "04 Quartos | Piscina"
    /\ exists pre post, raw = pre ++ lit "04 Quartos | Piscina" ++ post.
Proof.
  apply (story_flow_returns_trimmed_part
           (Return (Some (VString (lit " | 04 Quartos | Piscina "))))).
  vm_compute. reflexivity.
Defined.

End StoryFlowMore.

Section StrayPipes.

Import StoryFlow.
Import Page.

Lemma last_app_nonempty (l1 l2 : jsstring) d :
  l2 <> [] -> last (l1 ++ l2) d = last l2 d.
Proof.
  intros H. destruct (exists_last H) as (r & x & ->).
  rewrite app_assoc, !last_last. reflexivity.
Qed.

(** [trim] removes the whitespace around a text whose first and last code
    units are not whitespace. *)
Lemma trim_around pre x post :
  Forall (fun a => isWhiteSpace a = true) pre ->
  Forall (fun a => isWhiteSpace a = true) post ->
  x <> [] ->
  isWhiteSpace (hd 0%N x) = false -> isWhiteSpace (last x 0%N) = false ->
  trim (pre ++ x ++ post) = x.
Proof.
  intros Hpre Hpost Hne Hh Hl. destruct x as [|c x]; [contradiction|].
  assert (Hne' : c :: x <> []) by discriminate.
  destruct (exists_last Hne') as (body & d & E).
  apply trim_wrapped with d body; try assumption.
  rewrite E, last_last in Hl. exact Hl.
Qed.

Lemma cleanCaption_ends c :
  cleanCaption c ->
  isWhiteSpace (hd 0%N c) = false /\ isWhiteSpace (last c 0%N) = false.
Proof.
  intros (Hne & Htrim & _ & _). destruct c as [|a c]; [contradiction|].
  split; [apply trim_fixed_head with c, Htrim|].
  assert (Hne' : a :: c <> []) by discriminate.
  destruct (exists_last Hne') as (body & d & E).
  rewrite E, last_last. apply trim_fixed_last with body.
  rewrite <- E. exact Htrim.
Qed.

(** A clean caption followed by whitespace and a pipe: the pipe is found
    at the end and cut, and the caption is left. *)
Lemma caption_then_pipe c mid :
  cleanCaption c -> Forall (fun a => isWhiteSpace a = true) mid ->
  let t := c ++ mid ++ [PIPE] in
  t <> []
  /\ isWhiteSpace (hd 0%N t) = false /\ isWhiteSpace (last t 0%N) = false
  /\ startsWith t [PIPE] = false
  /\ endsWith t [PIPE] = true
  /\ trim (sliceDropLast t) = c.
Proof.
  intros Hc Hmid t. pose proof Hc as (Hne & Htrim & Hs & He).
  destruct (cleanCaption_ends c Hc) as [Hh Hl].
  destruct c as [|a c]; [contradiction|].
  split; [discriminate|]. split; [exact Hh|]. split.
  { unfold t. rewrite app_assoc, last_last. reflexivity. }
  split.
  { unfold t, startsWith in *. cbn [dropPrefix app] in *.
    destruct (char_eqb PIPE a); [discriminate Hs|reflexivity]. }
  split.
  { unfold t. rewrite app_assoc, endsWith_char_app. reflexivity. }
  unfold t, sliceDropLast. rewrite app_assoc, removelast_last.
  rewrite <- (app_nil_l ((a :: c) ++ mid)).
  apply trim_around; try assumption; constructor.
Qed.

(** X10.  A clean caption wrapped in whitespace, with or without one stray
    pipe before it and one after it, is given back exactly by the final
    check of the story flow. *)
Theorem stray_pipes_are_removed
    (c pre mid1 mid2 post p1 p2 : jsstring) :
  cleanCaption c ->
  Forall (fun a => isWhiteSpace a = true) pre ->
  Forall (fun a => isWhiteSpace a = true) mid1 ->
  Forall (fun a => isWhiteSpace a = true) mid2 ->
  Forall (fun a => isWhiteSpace a = true) post ->
  p1 = [] \/ p1 = [PIPE] -> p2 = [] \/ p2 = [PIPE] ->
  stripPipes (pre ++ p1 ++ mid1 ++ c ++ mid2 ++ p2 ++ post) = c.
Proof.
  intros Hc Hpre Hm1 Hm2 Hpost Hp1 Hp2.
  pose proof Hc as (Hne & Htrim & Hs & He).
  destruct (cleanCaption_ends c Hc) as [Hh Hl].
  destruct (caption_then_pipe c mid2 Hc Hm2)
    as (Htne & Hth & Htl & Hts & Hte & Htt).
  set (t := c ++ mid2 ++ [PIPE]) in *.
  assert (Hst : forall y, startsWith (PIPE :: y) [PIPE] = true).
  { intros y. unfold startsWith. cbn [dropPrefix].
    rewrite char_eqb_refl. reflexivity. }
  unfold stripPipes.
  destruct Hp1 as [->| ->], Hp2 as [->| ->].
  - replace (pre ++ [] ++ mid1 ++ c ++ mid2 ++ [] ++ post)
      with ((pre ++ mid1) ++ c ++ (mid2 ++ post))
      by (rewrite <- !app_assoc; reflexivity).
    rewrite trim_around by (try apply Forall_app; auto).
    rewrite Hs, He. reflexivity.
  - replace (pre ++ [] ++ mid1 ++ c ++ mid2 ++ [PIPE] ++ post)
      with ((pre ++ mid1) ++ t ++ post)
      by (unfold t; rewrite <- !app_assoc; reflexivity).
    rewrite trim_around by (try apply Forall_app; auto).
    rewrite Hts, Hte. exact Htt.
  - replace (pre ++ [PIPE] ++ mid1 ++ c ++ mid2 ++ [] ++ post)
      with (pre ++ (PIPE :: mid1 ++ c) ++ (mid2 ++ post))
      by (simpl; rewrite <- !app_assoc; reflexivity).
    rewrite trim_around; try (apply Forall_app; auto); auto;
      try discriminate;
      [|rewrite app_comm_cons, last_app_nonempty by exact Hne; exact Hl].
    rewrite Hst. cbn [substring1 tl].
    assert (Htr : trim (mid1 ++ c) = c).
    { rewrite <- (app_nil_r c) at 1. apply trim_around; auto. }
    rewrite Htr, He. reflexivity.
  - replace (pre ++ [PIPE] ++ mid1 ++ c ++ mid2 ++ [PIPE] ++ post)
      with (pre ++ (PIPE :: mid1 ++ t) ++ post)
      by (unfold t; simpl; rewrite <- !app_assoc; reflexivity).
    rewrite trim_around; auto; try discriminate;
      [|rewrite app_comm_cons, last_app_nonempty by exact Htne; exact Htl].
    rewrite Hst. cbn [substring1 tl].
    assert (Htr : trim (mid1 ++ t) = t).
    { rewrite <- (app_nil_r t) at 1. apply trim_around; auto. }
    rewrite Htr, Hte. exact Htt.
Qed.

Lemma stray_pipes_are_removed_witness :
  stripPipes (lit " " ++ [PIPE] ++ lit " " ++ lit "04 Quartos | Piscina"
                ++ lit "  " ++ [PIPE] ++ [NEWLINE])
  = lit "04 Quartos | Piscina".
Proof.
  apply stray_pipes_are_removed.
  - vm_compute. repeat split; try reflexivity. discriminate.
  - vm_compute. repeat constructor.
  - vm_compute. repeat constructor.
  - vm_compute. repeat constructor.
  - vm_compute. repeat constructor.
  - right. reflexivity.
  - right. reflexivity.
Defined.

End StrayPipes.

Section StoryForm.

Import StoryFlow.
Import Page.

Lemma onSubmitStory_success s st :
  s <> [] ->
  onSubmitStory (Return (Some s)) st
  = {| storyLoading := false;
       generatedStory := s;
       storyToasts := {| variant := Default; title := SUCCESS_TITLE;
                         description := STORY_SUCCESS_TEXT |}
                        :: storyToasts st |}.
Proof.
  intros H. destruct s as [|c s]; [contradiction|]. reflexivity.
Qed.

Lemma onSubmitStory_failure r st e :
  tryGenerateStory r = Throw e ->
  onSubmitStory r st
  = {| storyLoading := false;
       generatedStory := [];
       storyToasts := {| variant := Destructive; title := STORY_ERROR_TITLE;
                         description := errorText e |} :: storyToasts st |}.
Proof.
  intros H. unfold onSubmitStory, onSubmitStoryUpdates. rewrite H.
  reflexivity.
Qed.

(** X11.  What a submission of the story form ends in, for every outcome
    of the prompt call behind the story flow: loading is off and the story
    displayed has no whitespace around it.  A non-empty string output whose
    stripped text is not empty is displayed stripped, with the success
    toast, and can then be copied; an output that is nothing but a stray
    pipe and whitespace passes the flow as an empty text and is reported by
    the page; an empty or missing output is reported by the flow, a
    non-string one by the engine, a rejection by its own message. *)
Theorem story_form_outcomes (prompt : outcome (option jsvalue))
    (st : storyState) :
  let st' := onSubmitStory
               (storyAdapterResult (generateStoryTextFlow prompt)) st in
  let failure message :=
    generatedStory st' = []
    /\ storyToasts st'
       = {| variant := Destructive; title := STORY_ERROR_TITLE;
            description := message |} :: storyToasts st in
  storyLoading st' = false
  /\ trim (generatedStory st') = generatedStory st'
  /\ match prompt with
     | Return (Some (VString raw)) =>
         if truthy raw then
           if truthy (stripPipes raw) then
             generatedStory st' = stripPipes raw
             /\ storyToasts st'
                = {| variant := Default; title := SUCCESS_TITLE;
                     description := STORY_SUCCESS_TEXT |} :: storyToasts st
             /\ handleCopyToClipboard (generatedStory st')
                = Some (textOf (captionLines (stripPipes raw)))
           else failure NO_STORY_TEXT
         else failure NO_STORY
     | Return (Some (VOther true)) => failure NO_TRIM
     | Return _ => failure NO_STORY
     | Throw e => failure (errorText e)
     end.
Proof.
  intros st' failure. unfold failure.
  destruct prompt as [[[| |raw|[|]]|]|e];
    try (subst st'; cbn [generateStoryTextFlow storyAdapterResult
                           valueTruthy negb];
         first
           [ rewrite onSubmitStory_failure
               with (e := Error NO_STORY) by reflexivity
           | rewrite onSubmitStory_failure
               with (e := TypeError NO_TRIM) by reflexivity
           | rewrite onSubmitStory_failure with (e := e) by reflexivity ];
         cbn [storyLoading generatedStory storyToasts errorText];
         repeat split; reflexivity).
  destruct raw as [|c raw].
  { subst st'. cbn [generateStoryTextFlow storyAdapterResult valueTruthy
                      truthy negb].
    rewrite onSubmitStory_failure with (e := Error NO_STORY) by reflexivity.
    repeat split; reflexivity. }
  subst st'.
  change (generateStoryTextFlow (Return (Some (VString (c :: raw)))))
    with (@Return jsstring (stripPipes (c :: raw))).
  cbn [storyAdapterResult truthy].
  destruct (stripPipes (c :: raw)) as [|d s] eqn:E.
  - rewrite onSubmitStory_failure with (e := Error NO_STORY_TEXT)
      by reflexivity.
    repeat split; reflexivity.
  - rewrite onSubmitStory_success by discriminate.
    cbn [storyLoading generatedStory storyToasts truthy].
    split; [reflexivity|]. split.
    + rewrite <- E. apply stripPipes_trimmed.
    + repeat split; reflexivity.
Qed.

End StoryForm.

(* ================================================================== *)
(** * More on [formatCurrency] *)
(* ================================================================== *)

Section CurrencyMarker.

Import Page.

Lemma isWhiteSpace_not_R c : isWhiteSpace c = true -> (c =? 82)%N = false.
Proof.
  intros H. destruct (c =? 82)%N eqn:E; [|reflexivity].
  apply N.eqb_eq in E. subst c. discriminate H.
Qed.

(** Right after a marker, the whitespace is skipped and the rest is read
    as usual. *)
Lemma removeMarker_skipping s :
  removeMarker true s = removeMarker false (trimStart s).
Proof.
  induction s as [|c s IH]; [reflexivity|].
  cbn [removeMarker trimStart andb].
  destruct (isWhiteSpace c) eqn:E; [exact IH|].
  cbn [removeMarker andb]. reflexivity.
Qed.

(** Leading whitespace is kept by the replacement. *)
Lemma removeMarker_leading_ws s :
  exists pre,
    Forall (fun a => isWhiteSpace a = true) pre
    /\ removeMarker false s = pre ++ removeMarker false (trimStart s).
Proof.
  induction s as [|c s (pre & Hpre & IH)].
  - exists []. split; [constructor|reflexivity].
  - cbn [trimStart]. destruct (isWhiteSpace c) eqn:E.
    + exists (c :: pre). split; [constructor; assumption|].
      cbn [removeMarker andb]. rewrite (isWhiteSpace_not_R c E).
      cbn [andb]. destruct s as [|d s].
      * simpl in IH. destruct pre; [reflexivity|discriminate IH].
      * rewrite IH. reflexivity.
    + exists []. split; [constructor|reflexivity].
Qed.

Lemma trim_ws_prefix pre x :
  Forall (fun a => isWhiteSpace a = true) pre -> trim (pre ++ x) = trim x.
Proof.
  intros H. unfold trim. rewrite trimStart_ws_app by exact H. reflexivity.
Qed.

Lemma normalizePrice_marker s :
  normalizePrice ([82%N; 36%N] ++ s) = normalizePrice s.
Proof.
  unfold normalizePrice. do 2 f_equal.
  change (removeMarker false ([82%N; 36%N] ++ s)) with (removeMarker true s).
  rewrite removeMarker_skipping.
  destruct (removeMarker_leading_ws s) as (pre & Hpre & E).
  rewrite E, trim_ws_prefix by exact Hpre. reflexivity.
Qed.

(** X12.  A currency marker [R$] in front of the price, with or without
    whitespace after it, does not change what is parsed: the price is read
    as without the marker, and when it is a number it is formatted the
    same. *)
Theorem leading_marker_is_ignored (valueStr : jsstring) :
  normalizePrice (lit "R$" ++ valueStr) = normalizePrice valueStr
  /\ (isNaN (parseFloat (normalizePrice valueStr)) = false ->
      formatCurrency (lit "R$" ++ valueStr) = formatCurrency valueStr).
Proof.
  assert (E : normalizePrice (lit "R$" ++ valueStr) = normalizePrice valueStr)
    by apply normalizePrice_marker.
  split; [exact E|].
  intros H. unfold formatCurrency. rewrite E, H. reflexivity.
Qed.

Lemma leading_marker_is_ignored_witness :
  isNaN (parseFloat (normalizePrice (lit " 1.250.000,5"))) = false
  /\ formatCurrency (lit "R$" ++ lit " 1.250.000,5")
     = formatCurrency (lit " 1.250.000,5").
Proof.
  assert (H : isNaN (parseFloat (normalizePrice (lit " 1.250.000,5")))
              = false) by (vm_compute; reflexivity).
  split; [exact H|].
  exact (proj2 (leading_marker_is_ignored (lit " 1.250.000,5")) H).
Defined.

End CurrencyMarker.

(* ================================================================== *)
(** * Reading back a formatted amount *)
(* ================================================================== *)

Section DecimalDigits.








(** A property that holds of the ten digit characters holds of every
    character that [isDigit] accepts. *)
Lemma digit_property (P : N -> bool) :
  forallb P [48; 49; 50; 51; 52; 53; 54; 55; 56; 57]%N = true ->
  forall c, isDigit c = true -> P c = true.
Proof.
  intros H c Hc. rewrite forallb_forall in H. apply H.
  unfold isDigit in Hc. apply andb_prop in Hc as [H1 H2].
  apply N.leb_le in H1, H2.
  assert (c = 48 \/ c = 49 \/ c = 50 \/ c = 51 \/ c = 52 \/ c = 53
          \/ c = 54 \/ c = 55 \/ c = 56 \/ c = 57)%N as Hcases by lia.
  simpl. intuition.
Qed.


End DecimalDigits.

Section FormattedAmount.

Import Page.











(** A weakening of [Forall] along a property of the digit characters. *)
Lemma digits_have (P : N -> bool) ds :
  forallb P [48; 49; 50; 51; 52; 53; 54; 55; 56; 57]%N = true ->
  Forall (fun c => isDigit c = true) ds -> Forall (fun c => P c = true) ds.
Proof.
  intros HP H. eapply Forall_impl; [|exact H].
  intros c Hc. apply digit_property; assumption.
Qed.

End FormattedAmount.

Section ParseFormatted.

Import Page.






End ParseFormatted.

Section CurrencyRoundTrip.

Import Page.







End CurrencyRoundTrip.

(* ================================================================== *)
(** * The lines of the description *)
(* ================================================================== *)

Section DescriptionLines.

Import Page.

Lemma consHead_app c xs ys :
  xs <> [] -> consHead c (xs ++ ys) = consHead c xs ++ ys.
Proof. intros H. destruct xs; [contradiction|reflexivity]. Qed.

(** The lines of two texts put together with a newline are the lines of
    the first followed by the lines of the second. *)
Lemma linesOf_app_newline a b :
  linesOf (a ++ NEWLINE :: b) = linesOf a ++ linesOf b.
Proof.
  induction a as [|c a IH].
  - cbn [app]. rewrite linesOf_cons, char_eqb_refl. reflexivity.
  - cbn [app]. rewrite !linesOf_cons, IH.
    destruct (char_eqb NEWLINE c); [reflexivity|].
    apply consHead_app, linesOf_nonempty.
Qed.

Lemma linesOf_join parts :
  parts <> [] -> linesOf (join parts [NEWLINE]) = flat_map linesOf parts.
Proof.
  induction parts as [|p parts IH]; [contradiction|]. intros _.
  destruct parts as [|q parts].
  - cbn [join flat_map]. rewrite app_nil_r. reflexivity.
  - rewrite join_cons. cbn [app]. rewrite linesOf_app_newline.
    rewrite IH by discriminate. reflexivity.
Qed.

(** X14.  Read line by line, the description is the lines of its parts in
    order: the location, a blank line, the code, the optional extra text
    after a blank line, a blank line, the header, the lines of the feature
    block, a blank line, the two areas, the price, a blank line and the
    three contact lines; a part is spread over several lines only by its
    own newlines. *)
Theorem description_lines_are_lines_of_parts (data : PropertyFormData)
    (formattedFeatures : jsstring) :
  linesOf (assembleDescription data formattedFeatures)
  = flat_map linesOf (descriptionParts data formattedFeatures)
  /\ exists before,
       linesOf (assembleDescription data formattedFeatures)
       = before
         ++ [[]; FEATURES_HEADER]
         ++ linesOf (trimStart formattedFeatures)
         ++ [[]]
         ++ linesOf (TOTAL_LABEL
                     ++ formatDecimalPtBR (areaValue (areaTotal data))
                     ++ SQUARE_METRES)
         ++ linesOf (PRIVATE_LABEL
                     ++ formatDecimalPtBR (areaValue (areaPrivada data))
                     ++ SQUARE_METRES)
         ++ linesOf (PRICE_LABEL ++ formatCurrency (valor data))
         ++ [[]; CONTACT_1; CONTACT_2; CONTACT_3].
Proof.
  assert (E : linesOf (assembleDescription data formattedFeatures)
              = flat_map linesOf (descriptionParts data formattedFeatures)).
  { unfold assembleDescription. apply linesOf_join. discriminate. }
  split; [exact E|]. rewrite E. unfold descriptionParts.
  exists (flat_map linesOf
            ([toUpperCase (bairro data) ++ LOCATION_SEP
                ++ toUpperCase (cidade data) ++ STATE_SUFFIX;
              []; CODE_LABEL ++ codigo data]
             ++ match descricaoAdicional data with
                | Some extra =>
                    if truthy (trim extra) then [[]; trim extra] else []
                | None => []
                end)).
  assert (H0 : linesOf [] = [[]]) by reflexivity.
  assert (H1 : linesOf FEATURES_HEADER = [FEATURES_HEADER])
    by (vm_compute; reflexivity).
  assert (H2 : linesOf CONTACT_1 = [CONTACT_1]) by (vm_compute; reflexivity).
  assert (H3 : linesOf CONTACT_2 = [CONTACT_2]) by (vm_compute; reflexivity).
  assert (H4 : linesOf CONTACT_3 = [CONTACT_3]) by (vm_compute; reflexivity).
  rewrite !flat_map_app. cbn [flat_map].
  rewrite H0, H1, H2, H3, H4, !app_nil_r, <- !app_assoc. reflexivity.
Qed.

End DescriptionLines.
